(** * sync-games: a shallow embedding of [scripts/sync-games.py]

    The development follows the Python source function by function.
    Python [str] values are modelled by [string], read as sequences of code
    points below 256; dictionaries by [gmap]; sets by [gset]; lists that are
    appended to by [list].  Code that touches the local download directory,
    the remote mirror or the network is written in a small state-and-exception
    monad over an explicit [State]. *)

From stdpp Require Import gmap strings list fin_maps sorting pretty.
From Stdlib Require Import ZArith Ascii.


(** ** Python string primitives *)

Module PyStr.

(** [bool(s)]: a string is truthy when it is not empty. *)
Definition truthy (s : string) : bool :=
  match s with "" => false | String _ _ => true end.

(** [s.startswith(p)] *)
Fixpoint startswith (p s : string) : bool :=
  match p, s with
  | "", _ => true
  | String a p', String b s' => if decide (a = b) then startswith p' s' else false
  | String _ _, "" => false
  end.

(** [s.endswith(p)] *)
Definition endswith (p s : string) : bool :=
  startswith (String.rev p) (String.rev s).

(** [str.isspace] on one code point below 256. *)
Definition is_space (c : ascii) : bool :=
  match c with
  | "009" | "010" | "011" | "012" | "013"
  | "028" | "029" | "030" | "031" | " " | "133" | "160" => true
  | _ => false
  end%char.

Fixpoint lstrip (s : string) : string :=
  match s with
  | "" => ""
  | String c s' => if is_space c then lstrip s' else s
  end.

(** [s.strip()] *)
Definition strip (s : string) : string :=
  String.rev (lstrip (String.rev (lstrip s))).

(** [s.split(sep)] for a non-empty separator: the pieces between the
    non-overlapping occurrences of [sep], scanned from the left.  [skip]
    counts the characters of a matched separator still to be dropped and
    [cur] holds the current piece, reversed. *)
Fixpoint split_go (sep : string) (skip : nat) (cur s : string) : list string :=
  match s with
  | "" => [String.rev cur]
  | String c s' =>
      match skip with
      | S k => split_go sep k cur s'
      | O =>
          if startswith sep s
          then String.rev cur :: split_go sep (String.length sep - 1) "" s'
          else split_go sep 0 (String c cur) s'
      end
  end.

Definition split (sep s : string) : list string := split_go sep 0 "" s.

(** [s[:-n]] for [n <= len(s)] *)
Definition drop_last (n : nat) (s : string) : string :=
  String.substring 0 (String.length s - n) s.

(** [s.rfind(c)] for a one-character needle: the index of the last
    occurrence, or [-1]. *)
Fixpoint rfind_go (c : ascii) (i : Z) (best : Z) (s : string) : Z :=
  match s with
  | "" => best
  | String a s' => rfind_go c (i + 1) (if decide (a = c) then i else best) s'
  end.

Definition rfind (c : ascii) (s : string) : Z := rfind_go c 0 (-1) s.

(** [s[i:]] for [0 <= i] *)
Definition from (i : Z) (s : string) : string :=
  String.substring (Z.to_nat i) (String.length s - Z.to_nat i) s.

(** [s[:i]] for [0 <= i] *)
Definition upto (i : Z) (s : string) : string :=
  String.substring 0 (Z.to_nat i) s.

(** [c in s] for a one-character needle *)
Definition contains_char (c : ascii) (s : string) : bool :=
  bool_decide (0 <= rfind c s)%Z.

End PyStr.

(** ** [GameDownloader.parse_tsv] *)

Module Tsv.
Import PyStr.

(** One parsed row: the dict built at [row = {}]. *)
Abbreviation row := (gmap string string).

(** The inner loop [for col, value in enumerate(values)]. *)
Fixpoint fill_row_from (headers : list string) (col : nat)
    (values : list string) (r : row) : row :=
  match values with
  | [] => r
  | value :: rest =>
      fill_row_from headers (S col) rest
        (if decide (col < length headers)
         then match headers !! col with
              | Some h => <[h := value]> r
              | None => r
              end
         else r)
  end.

Definition fill_row (headers values : list string) : row :=
  fill_row_from headers 0 values ∅.

Definition crlf : string := String "013" (String "010" "").
Definition tab : string := String "009" "".

(** The outer loop [for i in range(1, len(lines))]; [result] is the list
    being appended to. *)
Fixpoint parse_rows (headers : list string) (lines : list string)
    (result : list row) : list row :=
  match lines with
  | [] => result
  | line :: rest =>
      if truthy (strip line)
      then parse_rows headers rest (result ++ [fill_row headers (split tab line)])
      else parse_rows headers rest result
  end.

Definition parse_tsv (text : string) : list row :=
  match split crlf text with
  | [] => []
  | first :: rest => parse_rows (split tab first) rest []
  end.

End Tsv.


(** ** The metadata catalog: [add_or_update_game_metadata] *)

Module Catalog.

(** The values a metadata record holds: [None], booleans, strings and
    lists of strings. *)
Inductive pyval :=
| PNone
| PBool (b : bool)
| PStr (s : string)
| PList (l : list string).

Global Instance pyval_eq_dec : EqDecision pyval.
Proof. solve_decision. Defined.

(** One metadata record: a dict from field name to value. *)
Abbreviation record := (gmap string pyval).

Definition of_opt (o : option string) : pyval :=
  match o with Some s => PStr s | None => PNone end.

(** Truthiness of an optional string argument ([if download_url:]). *)
Definition opt_truthy (o : option string) : bool :=
  match o with Some s => PyStr.truthy s | None => false end.

(** [d.get(key)], which is [None] for a missing key. *)
Definition get (d : record) (key : string) : pyval := default PNone (d !! key).

(** [bool(d)] for a dict. *)
Definition dict_truthy (d : record) : bool := bool_decide (d ≠ ∅).

(** [l.remove(x)]: drops the first occurrence of [x]. *)
Fixpoint remove_first (x : string) (l : list string) : list string :=
  match l with
  | [] => []
  | y :: rest => if decide (y = x) then rest else y :: remove_first x rest
  end.

(** The search loop [for i, metadata in enumerate(self.games_metadata)]
    with its [break] at the first match. *)
Fixpoint find_existing (relative_path : pyval) (i : nat)
    (games_metadata : list record) : option (nat * record) :=
  match games_metadata with
  | [] => None
  | metadata :: rest =>
      if decide (get metadata "relative_path" = relative_path)
      then Some (i, metadata)
      else find_existing relative_path (S i) rest
  end.

(** The [languages] block of a fresh record: returns the list as it is
    after [languages.remove('en')] and the record with the field set when
    that list is not empty. *)
Definition store_languages (languages : option (list string))
    (game_metadata : record) : record :=
  match languages with
  | Some ((_ :: _) as l) =>
      let l := if decide ("en" ∈ l) then remove_first "en" l else l in
      match l with
      | [] => game_metadata
      | _ :: _ => <["languages" := PList l]> game_metadata
      end
  | _ => game_metadata
  end.

(** The base record of the [else] branch. *)
Definition fresh_record (game_id relative_path description download_url : option string)
    (languages : option (list string)) (platform : option string) : record :=
  let game_metadata : record :=
    <["description" := of_opt description]>
      (<["relative_path" := of_opt relative_path]>
         (<["id" := of_opt game_id]> ∅)) in
  let game_metadata :=
    if opt_truthy download_url
    then <["download_url" := of_opt download_url]> game_metadata
    else game_metadata in
  let game_metadata := store_languages languages game_metadata in
  if opt_truthy platform
  then <["platform" := of_opt platform]> game_metadata
  else game_metadata.

(** [for key, value in metadata_overrides.items(): game_metadata[key] = value] *)
Definition apply_overrides (metadata_overrides : option record)
    (game_metadata : record) : record :=
  match metadata_overrides with
  | Some o => if dict_truthy o then o ∪ game_metadata else game_metadata
  | None => game_metadata
  end.

(** [existing_metadata] as the two branches test it: the match found by
    the search, when it is a truthy dict. *)
Definition existing (relative_path : option string)
    (games_metadata : list record) : option (nat * record) :=
  match find_existing (of_opt relative_path) 0 games_metadata with
  | Some (i, m) => if dict_truthy m then Some (i, m) else None
  | None => None
  end.

(** Returns the new [self.games_metadata] and the returned record. *)
Definition add_or_update_game_metadata (games_metadata : list record)
    (game_id relative_path description download_url : option string)
    (languages : option (list string)) (platform : option string)
    (metadata_overrides : option record) : list record * record :=
  match existing relative_path games_metadata with
  | Some (existing_index, existing_metadata) =>
      let game_metadata := apply_overrides metadata_overrides existing_metadata in
      (<[existing_index := game_metadata]> games_metadata, game_metadata)
  | None =>
      let game_metadata :=
        apply_overrides metadata_overrides
          (fresh_record game_id relative_path description download_url languages platform) in
      (games_metadata ++ [game_metadata], game_metadata)
  end.

(** [_extract_languages]: probes the language columns in order and keeps
    each stripped, non-empty value once. *)
Definition lang_columns : list string :=
  ["lang"; "language"; "language1"; "language2"; "language3"].

Definition _extract_languages (data : gmap string string) : list string :=
  foldl (λ languages col,
           let lang_value := PyStr.strip (default "" (data !! col)) in
           if PyStr.truthy lang_value && bool_decide (lang_value ∉ languages)
           then languages ++ [lang_value] else languages)
        [] lang_columns.

End Catalog.

(** ** The world the script acts on *)

Module World.
Import Catalog.

(** A member of a zip archive: its name and its bytes. *)
Record ZipInfo := mkZipInfo { zi_filename : string; zi_data : string }.

(** What a local file holds: a zip archive, or bytes that are not one. *)
Inductive content :=
| Bytes (s : string)
| ZipArchive (members : list ZipInfo).

(** An extracted folder, as the list of entries written into it, each at
    a path relative to the folder. *)
Inductive tree_entry :=
| TFile (data : string)
| TDir.

Abbreviation tree := (list (list string * tree_entry)).

(** An entry of the download directory, by name. *)
Inductive node :=
| File (c : content)
| Dir (t : tree).

(** A folder of the mirror is either a whole copy or a cut-off one. *)
Inductive copy_state := Whole | Partial.

(** Commands sent to the mirror; names are relative to [scp_path]. *)
Inductive remote_cmd :=
| Ls                              (* ls -1 "<scp_path>" *)
| TestD (name : string)           (* test -d "<scp_path>/<name>" *)
| RmRf (name : string)            (* rm -rf "<scp_path>/<name>" *)
| ScpR (src dst : string)         (* scp -r <download_dir>/<src> <server>:<scp_path>/<dst> *)
| Mv (src dst : string).          (* mv "<scp_path>/<src>" "<scp_path>/<dst>" *)

(** The lines the script prints with [_print]. *)
Inductive message :=
| MsgCleanedIncomplete (temp : string)
| MsgErrorDownloading (url : string)
| MsgAlreadyExtracted (dir : string)
| MsgNoScp
| MsgUploaded (folder_name : string)
| MsgUploadFailed (folder_name : string)
| MsgCleanedFailedUpload (temp_name : string)
| MsgFoundFolders (n : nat)
| MsgErrorRemoteFolders
| MsgUnknownGame (game_id : string)
| MsgSkipping (target_name : string)
| MsgSkipButRemote (target_name : string)
| MsgAlreadyRemote (target_name : string)
| MsgMissingSource (target_name : string)
| MsgTransferLimit
| MsgCleanedStale (temp : string)
| MsgNoMetadata (target_name : string)
| MsgOrphans (names : list string)
| MsgNoGamesProcessed.

Inductive event :=
| Says (m : message)
| Fetch (url : string)                    (* urlretrieve is called *)
| Ran (cmd : remote_cmd) (rc : Z)         (* a remote command and its exit status *)
| WroteGamesJson.                         (* generate_processed_games_json is called *)

Inductive exn :=
| TypeError                               (* Path(None) *)
| AttributeError
| FileNotFoundError (name : string)
| IsADirectoryError (name : string)
| NotADirectoryError (name : string)
| BadZipFile (name : string)
| ValueError (member folder : string)     (* Path.relative_to *)
| URLError (url : string)                 (* whatever urlretrieve raises *)
| CalledProcessError (cmd : remote_cmd) (rc : Z)
| RemoteFoldersError
| MissingSource (target_name : string)    (* the FileNotFoundError of the loop *)
| OrphanedFolders (names : list string)
| SystemExit (code : Z).

(** [except Exception] catches everything here but [SystemExit]. *)
Definition is_Exception (e : exn) : bool :=
  match e with SystemExit _ => false | _ => true end.

(** What happens outside the script: how a download of a URL ends, and
    whether the n-th remote command of the run goes wrong. *)
Inductive fetch_outcome :=
| Fetched (c : content)       (* the whole body arrives *)
| FetchRefused                (* the transfer fails before a byte is written *)
| FetchCut (c : content).     (* the transfer fails after [c] was written *)

Inductive fault :=
| NoFault
| Broken                      (* the command fails and changes nothing *)
| BrokenPartial.              (* a copy fails and leaves a cut-off folder *)

Global Instance fault_eq_dec : EqDecision fault.
Proof. solve_decision. Defined.
Global Instance copy_state_eq_dec : EqDecision copy_state.
Proof. solve_decision. Defined.
Global Instance remote_cmd_eq_dec : EqDecision remote_cmd.
Proof. solve_decision. Defined.
Global Instance message_eq_dec : EqDecision message.
Proof. solve_decision. Defined.
Global Instance event_eq_dec : EqDecision event.
Proof. solve_decision. Defined.

Record Env := mkEnv {
  net : string → fetch_outcome;
  plan : nat → fault;
}.

Record State := mkState {
  fs : gmap string node;                      (* the download directory *)
  remote : gmap string copy_state;            (* the folders under scp_path *)
  tick : nat;                                 (* remote commands run so far *)
  events : list event;
  processed_games_metadata : list record;
}.

Inductive result (A : Type) :=
| Ok (a : A) (s : State)
| Raise (e : exn) (s : State).
Global Arguments Ok {A} a s.
Global Arguments Raise {A} e s.

Definition M (A : Type) : Type := State → result A.

Definition ret {A} (a : A) : M A := λ s, Ok a s.
Definition bind {A B} (m : M A) (k : A → M B) : M B :=
  λ s, match m s with
       | Ok a s' => k a s'
       | Raise e s' => Raise e s'
       end.
Definition raise {A} (e : exn) : M A := λ s, Raise e s.

(** [try: m except <caught>: h] *)
Definition try_except {A} (m : M A) (caught : exn → bool) (h : exn → M A) : M A :=
  λ s, match m s with
       | Ok a s' => Ok a s'
       | Raise e s' => if caught e then h e s' else Raise e s'
       end.

Definition state_of {A} (r : result A) : State :=
  match r with Ok _ s => s | Raise _ s => s end.

End World.

Declare Scope sync_scope.
Delimit Scope sync_scope with sync.
Notation "x <- m ;; k" := (World.bind m (λ x, k))
  (at level 100, m at next level, right associativity) : sync_scope.
Notation "m ;;; k" := (World.bind m (λ _, k))
  (at level 100, right associativity) : sync_scope.

(** ** Primitive actions: printing, [pathlib] and [subprocess] *)

Module Prim.
Import World.
Local Open Scope sync_scope.

Definition say (m : message) : M unit :=
  λ s, Ok () (mkState (fs s) (remote s) (tick s) (events s ++ [Says m])
                      (processed_games_metadata s)).

Definition log (e : event) : M unit :=
  λ s, Ok () (mkState (fs s) (remote s) (tick s) (events s ++ [e])
                      (processed_games_metadata s)).

Definition set_fs (f : gmap string node) : M unit :=
  λ s, Ok () (mkState f (remote s) (tick s) (events s) (processed_games_metadata s)).

(** [path.exists()] and [path.is_dir()] for [download_dir / name] *)
Definition exists_ (name : string) : M bool :=
  λ s, Ok (bool_decide (is_Some (fs s !! name))) s.

Definition is_dir (name : string) : M bool :=
  λ s, Ok (match fs s !! name with Some (Dir _) => true | _ => false end) s.

(** [path.unlink()]: removes a file, raises on a directory or a missing
    path. *)
Definition unlink (name : string) : M unit :=
  λ s, match fs s !! name with
       | Some (File _) => set_fs (delete name (fs s)) s
       | Some (Dir _) => Raise (IsADirectoryError name) s
       | None => Raise (FileNotFoundError name) s
       end.

(** [shutil.rmtree(path)] on a directory *)
Definition rmtree (name : string) : M unit :=
  λ s, match fs s !! name with
       | Some (Dir _) => set_fs (delete name (fs s)) s
       | Some (File _) => Raise (NotADirectoryError name) s
       | None => Raise (FileNotFoundError name) s
       end.

(** [src.rename(dst)] for a file [src]: replaces a file at [dst], raises
    when [dst] is a directory. *)
Definition rename (src dst : string) : M unit :=
  λ s, match fs s !! src with
       | None => Raise (FileNotFoundError src) s
       | Some n =>
           match fs s !! dst with
           | Some (Dir _) => Raise (IsADirectoryError dst) s
           | _ => set_fs (<[dst := n]> (delete src (fs s))) s
           end
       end.

(** The block the loop repeats to drop a local folder or file:
<<
    if p.exists():
        if p.is_dir(): shutil.rmtree(p)
        else: p.unlink()
>> *)
Definition remove_path (name : string) : M unit :=
  e <- exists_ name ;;
  if e : bool then
    d <- is_dir name ;;
    if d : bool then rmtree name else unlink name
  else ret ().

(** [if p.exists(): p.unlink()] *)
Definition unlink_if_exists (name : string) : M unit :=
  e <- exists_ name ;;
  if e : bool then unlink name else ret ().

(** [urllib.request.urlretrieve(url, temp)]: opens the URL, then writes
    the body to the file. *)
Definition urlretrieve (env : Env) (url temp : string) : M unit :=
  log (Fetch url) ;;;
  match net env url with
  | FetchRefused => raise (URLError url)
  | Fetched c =>
      λ s, match fs s !! temp with
           | Some (Dir _) => Raise (IsADirectoryError temp) s
           | _ => set_fs (<[temp := File c]> (fs s)) s
           end
  | FetchCut c =>
      λ s, match fs s !! temp with
           | Some (Dir _) => Raise (IsADirectoryError temp) s
           | _ => (set_fs (<[temp := File c]> (fs s)) ;;; raise (URLError url)) s
           end
  end.

(** The effect of one remote command on the mirror, its exit status and
    its output lines. *)
Definition sorted_names (r : gmap string copy_state) : list string :=
  merge_sort String.le (elements (dom r)).

Definition exec (f : fault) (cmd : remote_cmd) (src_exists : bool)
    (r : gmap string copy_state) : Z * list string * gmap string copy_state :=
  match f with
  | Broken => (255%Z, [], r)
  | BrokenPartial =>
      match cmd with
      | ScpR _ dst =>
          (1%Z, [], if src_exists
                    then match r !! dst with
                         | None => <[dst := Partial]> r
                         | Some _ => r
                         end
                    else r)
      | _ => (255%Z, [], r)
      end
  | NoFault =>
      match cmd with
      | Ls => (0%Z, sorted_names r, r)
      | TestD name => (if decide (is_Some (r !! name)) then 0%Z else 1%Z, [], r)
      | RmRf name => (0%Z, [], delete name r)
      | ScpR _ dst =>
          if src_exists
          then (0%Z, [], match r !! dst with
                         | None => <[dst := Whole]> r
                         | Some _ => r     (* copied inside the existing folder *)
                         end)
          else (1%Z, [], r)
      | Mv src dst =>
          match r !! src with
          | None => (1%Z, [], r)
          | Some c =>
              match r !! dst with
              | None => (0%Z, [], <[dst := c]> (delete src r))
              | Some _ => (0%Z, [], delete src r)   (* moved inside [dst] *)
              end
          end
      end
  end.

Definition cmd_source (cmd : remote_cmd) : option string :=
  match cmd with ScpR src _ => Some src | _ => None end.

(** [subprocess.run(cmd, check=False)] *)
Definition run (env : Env) (cmd : remote_cmd) : M (Z * list string) :=
  λ s,
    let src_exists :=
      match cmd_source cmd with
      | Some src => bool_decide (is_Some (fs s !! src))
      | None => false
      end in
    let '(rc, out, r') := exec (plan env (tick s)) cmd src_exists (remote s) in
    Ok (rc, out)
       (mkState (fs s) r' (S (tick s)) (events s ++ [Ran cmd rc])
                (processed_games_metadata s)).

(** [subprocess.run(cmd, check=True)] *)
Definition run_checked (env : Env) (cmd : remote_cmd) : M unit :=
  r <- run env cmd ;;
  if decide (r.1 = 0%Z) then ret () else raise (CalledProcessError cmd r.1).

End Prim.

(** ** Archive names and the unwrap decision of [extract_zip] *)

Module Zip.
Import World.

Definition slash : string := "/".

(** [Path(name).stem] for a name without slashes: the name without its
    last suffix. *)
Definition stem (name : string) : string :=
  let i := PyStr.rfind "." name in
  if decide (0 < i < Z.of_nat (String.length name) - 1)%Z
  then PyStr.upto i name else name.

(** [PurePosixPath(s).parts]: empty and ["."] components vanish, a leading
    slash (or exactly two) is the root. *)
Definition path_parts (s : string) : list string :=
  let comps := filter (λ p, p ≠ "" ∧ p ≠ ".") (PyStr.split slash s) in
  if PyStr.startswith "//" s && negb (PyStr.startswith "///" s) then "//" :: comps
  else if PyStr.startswith "/" s then "/" :: comps
  else comps.

(** [p.relative_to(other)] on parts: the rest of [p] after [other], or
    nothing when [other] is not a leading part of [p] ([ValueError]). *)
Fixpoint relative_to (p other : list string) : option (list string) :=
  match other, p with
  | [], _ => Some p
  | o :: other', x :: p' => if decide (x = o) then relative_to p' other' else None
  | _ :: _, [] => None
  end.

(** [ZipInfo.is_dir()] *)
Definition zi_is_dir (m : ZipInfo) : bool := PyStr.endswith slash (zi_filename m).

(** The classification loop over [zip_ref.namelist()]. *)
Definition classify_name (acc : list string * list string) (name : string)
    : list string * list string :=
  let '(root_files, root_folders) := acc in
  if PyStr.startswith "__MACOSX/" name then acc
  else
    let parts := PyStr.split slash name in
    match parts with
    | [p0] => if PyStr.truthy p0 then (root_files ++ [name], root_folders) else acc
    | p0 :: p1 :: _ =>
        if PyStr.truthy p0 && negb (PyStr.truthy p1)
        then (root_files, root_folders ++ [p0]) else acc
    | [] => acc
    end.

Definition classify (all_names : list string) : list string * list string :=
  foldl classify_name ([], []) all_names.



(** The decision: [Some folder] when the archive is to be unwrapped. *)
Definition single_root_folder (all_names : list string) : option string :=
  let '(root_files, root_folders) := classify all_names in
  match root_files, remove_dups root_folders with
  | [], [folder] => Some folder
  | _, _ => None
  end.

(** The unwrap loop over [zip_ref.infolist()]: the entries written so far
    and, when [relative_to] raises, the exception that stops the loop. *)
Fixpoint unwrap_members (folder : string) (members : list ZipInfo) (written : tree)
    : tree * option exn :=
  match members with
  | [] => (written, None)
  | member :: rest =>
      let member_parts := path_parts (zi_filename member) in
      if zi_is_dir member || bool_decide (head member_parts = Some "__MACOSX")
      then unwrap_members folder rest written
      else
        match relative_to member_parts (path_parts (folder +:+ slash)) with
        | None => (written, Some (ValueError (zi_filename member) (folder +:+ slash)))
        | Some rel_path =>
            unwrap_members folder rest (written ++ [(rel_path, TFile (zi_data member))])
        end
  end.





(** [zip_ref.extractall(extract_dir)]: every member at its own name, with
    empty, ["."] and [".."] components dropped by [zipfile]. *)
Definition arcname_parts (name : string) : list string :=
  filter (λ p, p ≠ "" ∧ p ≠ "." ∧ p ≠ "..") (PyStr.split slash name).

Definition extractall (members : list ZipInfo) : tree :=
  map (λ member, (arcname_parts (zi_filename member),
                  if zi_is_dir member then TDir else TFile (zi_data member)))
      members.

End Zip.

(** ** The transfer steps of [GameDownloader] *)

Module Script.
Import Catalog World Prim Zip.
Local Open Scope sync_scope.

(** The fields of [self] the modelled methods read. *)
Record Self := mkSelf {
  scp_server : option string;
  scp_path : option string;
  games : gmap string string;
  metadata : gmap string record;        (* the override document *)
  games_metadata : list record;
}.

(** [not self.scp_server or not self.scp_path] is false *)
Definition configured (self : Self) : bool :=
  opt_truthy (scp_server self) && opt_truthy (scp_path self).

Section Steps.
Variable env : Env.
Variable self : Self.

Definition downloading (filename : string) : string := filename +:+ ".downloading".
Definition uploading (folder_name : string) : string := folder_name +:+ ".uploading".

(** [download_file(url, filename)]; the result is the returned path, as
    a name inside the download directory, or [None]. *)
Definition download_file (url filename : string) : M (option string) :=
  let temp_filepath := downloading filename in
  try_except
    (urlretrieve env url temp_filepath ;;;
     rename temp_filepath filename ;;;
     ret (Some filename))
    is_Exception
    (λ _,
       e <- exists_ temp_filepath ;;
       (if e : bool
        then unlink temp_filepath ;;; say (MsgCleanedIncomplete temp_filepath)
        else ret ()) ;;;
       say (MsgErrorDownloading url) ;;;
       ret None).

(** The body of [with zipfile.ZipFile(zip_path, 'r') as zip_ref]: writes
    the entries under [extract_dir]. *)
Definition put_tree (extract_dir : string) (t : tree) (f : gmap string node)
    : gmap string node :=
  match t with
  | [] => f             (* nothing is written, the folder is not created *)
  | _ :: _ => <[extract_dir := Dir t]> f
  end.

Definition write_tree (extract_dir : string) (t : tree) : M unit :=
  λ s, set_fs (put_tree extract_dir t (fs s)) s.

Definition extract_members (extract_dir : string) (members : list ZipInfo) : M unit :=
  match single_root_folder (map zi_filename members) with
  | Some folder =>
      let '(written, stopped) := unwrap_members folder members [] in
      write_tree extract_dir written ;;;
      match stopped with
      | Some e => raise e
      | None => ret ()
      end
  | None => write_tree extract_dir (extractall members)
  end.

Definition open_zip (zip_name : string) : M (list ZipInfo) :=
  λ s, match fs s !! zip_name with
       | None => Raise (FileNotFoundError zip_name) s
       | Some (Dir _) => Raise (IsADirectoryError zip_name) s
       | Some (File (Bytes _)) => Raise (BadZipFile zip_name) s
       | Some (File (ZipArchive members)) => Ok members s
       end.

(** [extract_zip(zip_path)]; [zip_path] is [None] or a name inside the
    download directory, and so is the returned folder. *)
Definition extract_zip (zip_path : option string) : M string :=
  match zip_path with
  | None => raise TypeError
  | Some zip_name =>
      let extract_dir := stem zip_name in
      e <- exists_ extract_dir ;;
      if e : bool then
        say (MsgAlreadyExtracted extract_dir) ;;;
        ret extract_dir
      else
        members <- open_zip zip_name ;;
        extract_members extract_dir members ;;;
        unlink zip_name ;;;
        ret extract_dir
  end.

(** [get_remote_folders()] *)
Fixpoint verify_folders (lines : list string) (folders : gset string)
    : M (gset string) :=
  match lines with
  | [] => ret folders
  | line :: rest =>
      let line := PyStr.strip line in
      if PyStr.truthy line then
        test_result <- run env (TestD line) ;;
        verify_folders rest
          (if decide (test_result.1 = 0%Z) then folders ∪ {[line]} else folders)
      else verify_folders rest folders
  end.

Definition get_remote_folders : M (gset string) :=
  if negb (configured self) then ret ∅
  else
    result <- run env Ls ;;
    if decide (result.1 = 0%Z)
    then verify_folders result.2 ∅
    else raise RemoteFoldersError.

(** [folder_exists_on_remote(folder_name, remote_folders_set)] with the
    pre-fetched set, as the loop calls it; returns the answer and the
    set as the call leaves it. *)
Definition folder_exists_on_remote (folder_name : string)
    (remote_folders_set : gset string) : bool * gset string :=
  if negb (configured self) then (false, remote_folders_set)
  else if decide (folder_name ∈ remote_folders_set)
       then (true, remote_folders_set ∖ {[folder_name]})
       else (false, remote_folders_set).

(** [upload_folder(folder_path)] for [download_dir / folder_name] *)
Definition upload_folder (folder_name : string) : M bool :=
  if negb (configured self) then
    say MsgNoScp ;;; ret false
  else
    let temp_name := uploading folder_name in
    run env (RmRf temp_name) ;;;
    try_except
      (run_checked env (ScpR folder_name temp_name) ;;;
       run_checked env (Mv temp_name folder_name) ;;;
       say (MsgUploaded folder_name) ;;;
       ret true)
      (λ e, match e with CalledProcessError _ _ => true | _ => false end)
      (λ _,
         say (MsgUploadFailed folder_name) ;;;
         run env (RmRf temp_name) ;;;
         say (MsgCleanedFailedUpload temp_name) ;;;
         ret false).

End Steps.
End Script.

(** ** Reconciliation: [download_and_process_games] *)

Module Reconcile.
Import Catalog World Prim Zip Script.
Local Open Scope sync_scope.

(** One value of [games_dict].  The keys ['url'] and ['filename'] are
    always set together (entries that come from [game_ids]); the key
    ['download_url'] is set by the metadata merge.  The keys ['game_id'],
    ['metadata'] and ['source'] are never read by the loop and are left
    out. *)
Record game_data := mkGame {
  gd_sheet : option (string * string);
  gd_target_name : string;
  gd_download_url : option string;
}.

(** The local variables of the loop. *)
Record Locals := mkLocals {
  transfer_count : Z;
  any_uploads_occurred : bool;
  remote_folders : gset string;
}.

Definition pyval_truthy (v : pyval) : bool :=
  match v with
  | PNone => false
  | PBool b => b
  | PStr s => PyStr.truthy s
  | PList l => bool_decide (l ≠ [])
  end.

Definition host : string := "https://downloads.scummvm.org".
Definition frs_prefix : string := "https://downloads.scummvm.org/frs".

(** [url[url.rfind('/') + 1:]] *)
Definition basename (url : string) : string :=
  PyStr.from (PyStr.rfind "/" url + 1) url.

(** [filename[:-4] if filename.endswith('.zip') else filename] *)
Definition strip_zip (filename : string) : string :=
  if PyStr.endswith ".zip" filename then PyStr.drop_last 4 filename else filename.

(** The head of the loop body: [has_scummvm_download], [url], [filename]. *)
Definition resolve_source (game_data : game_data)
    : bool * option string * option string :=
  match gd_sheet game_data with
  | Some (url, filename) => (PyStr.startswith frs_prefix url, Some url, Some filename)
  | None =>
      match gd_download_url game_data with
      | Some download_url =>
          if PyStr.truthy download_url then
            if PyStr.startswith "/frs" download_url then
              let url := host +:+ download_url in
              (true, Some url, Some (basename url))
            else if PyStr.startswith frs_prefix download_url then
              (true, Some download_url, Some (basename download_url))
            else (false, None, None)
          else (false, None, None)
      | None => (false, None, None)
      end
  end.

Definition has_scummvm_download (game_data : game_data) : bool :=
  (resolve_source game_data).1.1.

Section Loop.
Variable env : Env.
Variable self : Self.

(** [self.metadata.get(target_name, {}).get("skip", False)] *)
Definition is_skipped (target_name : string) : bool :=
  match metadata self !! target_name with
  | Some entry => pyval_truthy (default (PBool false) (entry !! "skip"))
  | None => false
  end.

(** "Clean up any local files for completed remote games" *)
Definition clean_completed (has : bool) (filename : option string)
    (target_name : string) : M unit :=
  match filename with
  | Some filename =>
      if has && PyStr.truthy filename then
        remove_path target_name ;;;
        unlink_if_exists filename
      else ret ()
  | None => ret ()
  end.

(** "Add to processed games list (single place for all cases)" *)
Definition add_processed (target_name : string) : M unit :=
  match find_existing (PStr target_name) 0 (games_metadata self) with
  | Some (_, game_metadata) =>
      if dict_truthy game_metadata then
        λ s, Ok () (mkState (fs s) (remote s) (tick s) (events s)
                      (processed_games_metadata s ++ [game_metadata]))
      else say (MsgNoMetadata target_name)
  | None => say (MsgNoMetadata target_name)
  end.

Definition count_upload (uploaded : bool) (l : Locals) : Locals :=
  if uploaded
  then mkLocals (transfer_count l + 1) true (remote_folders l)
  else l.

(** The branch "Game doesn't exist on remote - need to process it",
    after the missing-source check; returns the locals and
    [should_process_metadata]. *)
Definition transfer (max_transfers : option Z) (url filename target_name : string)
    (l : Locals) : M (Locals * bool) :=
  let local_folder_path := target_name in
  let allow_transfers :=
    match max_transfers with
    | None => true
    | Some m => bool_decide (transfer_count l < m)%Z
    end in
  (if allow_transfers then ret () else say MsgTransferLimit) ;;;
  folder_there <- exists_ local_folder_path ;;
  if PyStr.endswith ".zip" filename && folder_there then
    uploaded <- (if allow_transfers then upload_folder env self local_folder_path
                 else ret false) ;;
    remove_path local_folder_path ;;;
    ret (count_upload uploaded l, true)
  else
    let temp_file_path := downloading filename in
    stale <- exists_ temp_file_path ;;
    (if stale : bool
     then unlink temp_file_path ;;; say (MsgCleanedStale temp_file_path)
     else ret ()) ;;;
    if allow_transfers then
      file_there <- exists_ filename ;;
      downloaded_file <- (if file_there : bool then ret (Some filename)
                          else download_file env url filename) ;;
      if PyStr.endswith ".zip" filename then
        extracted_folder <- extract_zip downloaded_file ;;
        uploaded <- upload_folder env self extracted_folder ;;
        ret (count_upload uploaded l, true)
      else ret (l, true)
    else
      unlink_if_exists filename ;;;
      remove_path local_folder_path ;;;
      (if PyStr.endswith ".zip" filename then unlink_if_exists filename else ret ()) ;;;
      ret (l, false).

(** One iteration of [for game_data in all_games_to_process]. *)
Definition process_game (max_transfers : option Z) (game_data : game_data)
    (l : Locals) : M Locals :=
  let '(has, url, filename) := resolve_source game_data in
  let target_name := gd_target_name game_data in
  let '(exists_on_remote, remote_folders') :=
    folder_exists_on_remote self target_name (remote_folders l) in
  let l := mkLocals (transfer_count l) (any_uploads_occurred l) remote_folders' in
  let skipped := is_skipped target_name in
  out <-
    (if skipped && negb exists_on_remote then
       say (MsgSkipping target_name) ;;; ret (l, false)
     else if skipped && exists_on_remote then
       say (MsgSkipButRemote target_name) ;;;
       clean_completed has filename target_name ;;;
       ret (l, true)
     else if exists_on_remote then
       say (MsgAlreadyRemote target_name) ;;;
       clean_completed has filename target_name ;;;
       ret (l, true)
     else if negb has then
       say (MsgMissingSource target_name) ;;;
       raise (MissingSource target_name)
     else
       match url, filename with
       | Some url, Some filename => transfer max_transfers url filename target_name l
       | _, _ => raise AttributeError
       end) ;;
  let '(l, should_process_metadata) := out : Locals * bool in
  (if should_process_metadata then add_processed target_name else ret ()) ;;;
  ret l.

Fixpoint process_games (max_transfers : option Z) (all_games_to_process : list game_data)
    (l : Locals) : M Locals :=
  match all_games_to_process with
  | [] => ret l
  | game_data :: rest =>
      l' <- process_game max_transfers game_data l ;;
      process_games max_transfers rest l'
  end.

(** "Check for orphaned folders on remote server" *)
Definition orphans (remote_folders : gset string) : list string :=
  merge_sort String.le (elements remote_folders).

Definition check_orphans (remote_folders : gset string) : M unit :=
  if decide (remote_folders = ∅) then ret ()
  else
    say (MsgOrphans (orphans remote_folders)) ;;;
    raise (OrphanedFolders (orphans remote_folders)).

(** The loop and the orphan check, for a given snapshot and list of
    games. *)
Definition reconcile (max_transfers : option Z) (all_games_to_process : list game_data)
    (snapshot : gset string) : M Locals :=
  l <- process_games max_transfers all_games_to_process (mkLocals 0 false snapshot) ;;
  check_orphans (remote_folders l) ;;;
  ret l.

(** [games_dict]: a dict in insertion order. *)
Fixpoint dict_set (key : string) (f : option game_data → game_data)
    (d : list (string * game_data)) : list (string * game_data) :=
  match d with
  | [] => [(key, f None)]
  | (k, v) :: rest =>
      if decide (k = key) then (k, f (Some v)) :: rest
      else (k, v) :: dict_set key f rest
  end.

(** The first loop, over [game_ids]; [inl game_id] when the id is not
    known ([sys.exit(1)]). *)
Definition sheet_entry (game_id : string) : string + game_data :=
  if PyStr.startswith "http" game_id then
    let url := game_id in
    let filename := basename url in
    inr (mkGame (Some (url, filename)) (strip_zip filename) None)
  else
    match games self !! game_id with
    | None => inl game_id
    | Some path =>
        let url := host +:+ path in
        let game_id :=
          if PyStr.contains_char "/" game_id
          then PyStr.upto (PyStr.rfind "/" game_id) game_id else game_id in
        let game_id := PyStr.from (PyStr.rfind ":" game_id + 1) game_id in
        let filename := basename url in
        let filename :=
          if PyStr.startswith game_id filename then filename
          else game_id +:+ "-" +:+ filename in
        inr (mkGame (Some (url, filename)) (strip_zip filename) None)
    end.

Fixpoint add_game_ids (game_ids : list string) (d : list (string * game_data))
    : string + list (string * game_data) :=
  match game_ids with
  | [] => inr d
  | game_id :: rest =>
      match sheet_entry game_id with
      | inl unknown => inl unknown
      | inr g => add_game_ids rest (dict_set (gd_target_name g) (λ _, g) d)
      end
  end.

(** The second loop, over [self.games_metadata].  Every record there has
    the key [relative_path] ([add_or_update_game_metadata] sets it), and
    a record's [download_url] is read as a string. *)
Definition merge_metadata (d : list (string * game_data)) (m : record)
    : list (string * game_data) :=
  match m !! "relative_path" with
  | Some (PStr target_name) =>
      if bool_decide (is_Some (metadata self !! target_name))
         && negb (is_skipped target_name)
      then
        let download_url :=
          match m !! "download_url" with Some (PStr u) => u | _ => "" end in
        dict_set target_name
          (λ old, match old with
                  | Some g => mkGame (gd_sheet g) (gd_target_name g) (Some download_url)
                  | None => mkGame None target_name (Some download_url)
                  end) d
      else d
  | _ => d
  end.

Definition games_dict (game_ids : list string) : string + list (string * game_data) :=
  match add_game_ids game_ids [] with
  | inl unknown => inl unknown
  | inr d => inr (foldl merge_metadata d (games_metadata self))
  end.

(** [download_and_process_games(game_ids, max_transfers)], up to the
    call of [build_http_index]. *)
Definition download_and_process_games (game_ids : list string)
    (max_transfers : option Z) : M unit :=
  snapshot <-
    try_except
      (remote_folders <- get_remote_folders env self ;;
       say (MsgFoundFolders (size remote_folders)) ;;;
       ret (Some remote_folders))
      is_Exception
      (λ _, say MsgErrorRemoteFolders ;;; ret None) ;;
  match snapshot with
  | None => ret ()
  | Some remote_folders =>
      match games_dict game_ids with
      | inl unknown => say (MsgUnknownGame unknown) ;;; raise (SystemExit 1)
      | inr d =>
          reconcile max_transfers (map snd d) remote_folders ;;;
          λ s, match processed_games_metadata s with
               | [] => say MsgNoGamesProcessed s
               | _ :: _ => log WroteGamesJson s
               end
      end
  end.

End Loop.
End Reconcile.

(** ** Sample data used in worked examples *)

Module Samples.
Import World.

(** An archive whose payload sits in one enclosing folder, recorded by a
    directory entry, next to macOS metadata. *)
Definition foo_archive : list ZipInfo :=
  [mkZipInfo "Foo/" ""; mkZipInfo "Foo/a.txt" "A"; mkZipInfo "Foo/sub/b.txt" "B";
   mkZipInfo "__MACOSX/Foo/._a.txt" "junk"].

(** A configured mirror with an empty catalog. *)
Definition mirror : Script.Self :=
  Script.mkSelf (Some "sync@mirror.example") (Some "/srv/games") ∅ ∅ [].

(** Every download is refused; the remote command number [n] is broken. *)
Definition breaks_at (n : nat) : Env :=
  mkEnv (λ _, FetchRefused) (λ k, if decide (k = n) then Broken else NoFault).

(** A catalog with the two demos [a] and [b], both downloadable from the
    first-party server as zip archives. *)
Definition record_a : Catalog.record :=
  {[ "id" := Catalog.PStr "scumm:a"; "relative_path" := Catalog.PStr "a" ]}.
Definition record_b : Catalog.record :=
  {[ "id" := Catalog.PStr "scumm:b"; "relative_path" := Catalog.PStr "b" ]}.

Definition two_demos : Script.Self :=
  Script.mkSelf (Some "sync@mirror.example") (Some "/srv/games") ∅ ∅ [record_a; record_b].

Definition url_a : string := "https://downloads.scummvm.org/frs/demos/a.zip".
Definition url_b : string := "https://downloads.scummvm.org/frs/demos/b.zip".

(** Every download delivers [foo_archive]; the remote commands whose
    numbers are listed in [broken] fail. *)
Definition serves (broken : list nat) : Env :=
  mkEnv (λ _, Fetched (ZipArchive foo_archive))
        (λ k, if decide (k ∈ broken) then Broken else NoFault).

(** An empty download directory next to an empty mirror. *)
Definition fresh : State := mkState ∅ ∅ 0 [] [].

End Samples.

(** ** Reasoning about runs *)

Module Wp.
Import World.

(** [wp m Q R s]: run from [s], [m] either returns [a] in a state with
    [Q a] or raises [e] in a state with [R e]. *)
Definition wp {A} (m : M A) (Q : A → State → Prop) (R : exn → State → Prop)
    (s : State) : Prop :=
  match m s with
  | Ok a s' => Q a s'
  | Raise e s' => R e s'
  end.

(** The uploads a run has completed: one line "successfully uploaded" is
    printed per completed upload. *)
Definition is_uploaded (e : event) : bool :=
  match e with Says (MsgUploaded _) => true | _ => false end.

Definition uploads (s : State) : nat :=
  length (filter (λ e, Is_true (is_uploaded e)) (events s)).

(** The copies to the mirror a run has started ([scp -r]). *)
Definition is_copy (e : event) : bool :=
  match e with Ran (ScpR _ _) _ => true | _ => false end.

Definition copies (s : State) : nat :=
  length (filter (λ e, Is_true (is_copy e)) (events s)).

(** The downloads a run has started. *)
Definition is_fetch (e : event) : bool :=
  match e with Fetch _ => true | _ => false end.

Definition fetches (s : State) : nat :=
  length (filter (λ e, Is_true (is_fetch e)) (events s)).

(** [m] completes no upload. *)
Definition quiet {A} (m : M A) : Prop :=
  ∀ s, wp m (λ _ s', uploads s' = uploads s) (λ _ s', uploads s' = uploads s) s.

End Wp.

(** ** The transfer budget as a relation between loop states *)

Module Budget.
Import World Reconcile Wp.

(** From locals [l] in state [s] to locals [l'] in state [s']: the counter
    has grown by the number of uploads completed in between, and it has not
    passed a budget [m] it had not passed already. *)
Definition counted (max_transfers : option Z) (l : Locals) (s : State)
    (l' : Locals) (s' : State) : Prop :=
  (transfer_count l ≤ transfer_count l')%Z ∧
  (Z.of_nat (uploads s') - Z.of_nat (uploads s)
   = transfer_count l' - transfer_count l)%Z ∧
  (∀ m, max_transfers = Some m →
        (transfer_count l' ≤ Z.max m (transfer_count l))%Z).

(** The snapshot after the loop has looked up the targets of [items]. *)
Definition snapshot_after (self : Script.Self) (items : list game_data)
    (remote_folders : gset string) : gset string :=
  foldl (λ rf g, (Script.folder_exists_on_remote self (gd_target_name g) rf).2)
        remote_folders items.

End Budget.

(** ** Which part of the world a step leaves alone *)

Module Frame.
Import World.

(** The three parts of the state besides the log: the download
    directory, the mirror with its command counter, and the list of
    processed records. *)
Inductive part := Local | Mirror | Processed.

Global Instance part_eq_dec : EqDecision part.
Proof. solve_decision. Defined.

Definition same (p : part) (s s' : State) : Prop :=
  match p with
  | Local => fs s' = fs s
  | Mirror => remote s' = remote s ∧ tick s' = tick s
  | Processed => processed_games_metadata s' = processed_games_metadata s
  end.

(** [m] keeps the relation [R] between the state it starts in and the
    state it ends in, whether it returns or raises. *)
Definition preserves {A} (R : State → State → Prop) (m : M A) : Prop :=
  ∀ s, R s (state_of (m s)).

End Frame.

(** ** Names derived from URLs and game ids *)

Module Names.
Import PyStr Script Reconcile.

(** [_get_relative_path(url, filename)] *)
Definition _get_relative_path (url filename : string) : string :=
  let filename :=
    if negb (truthy filename) then basename url
    else if startswith "/" filename then basename filename
    else filename in
  strip_zip filename.

(** [_get_target_name_for_game_id(game_id)] *)
Definition _get_target_name_for_game_id (self : Self) (game_id : string) : string :=
  if startswith "http" game_id then
    let url := game_id in
    strip_zip (basename url)
  else
    match games self !! game_id with
    | None => game_id
    | Some path =>
        let url := host +:+ path in
        let temp_game_id :=
          if contains_char "/" game_id
          then upto (rfind "/" game_id) game_id else game_id in
        let temp_game_id := from (rfind ":" temp_game_id + 1) temp_game_id in
        let filename := basename url in
        let filename :=
          if startswith temp_game_id filename then filename
          else temp_game_id +:+ "-" +:+ filename in
        strip_zip filename
    end.

(** The conversion of a collected URL into a game id in [main]:
    [f"https://downloads.scummvm.org{url}" if url.startswith('/frs/') else url] *)
Definition full_url (url : string) : string :=
  if startswith "/frs/" url then host +:+ url else url.

End Names.

(** ** The ssh and scp command lines *)

Module Ssh.
Import Catalog.

Definition control_path : string := "/tmp/scummvm-ssh-%r@%h:%p".

(** [if self.scp_port:] for an [int] or [None] *)
Definition port_truthy (scp_port : option Z) : bool :=
  match scp_port with Some p => bool_decide (p ≠ 0%Z) | None => false end.

(** [str(self.scp_port)] *)
Definition port_str (scp_port : option Z) : string :=
  match scp_port with Some p => pretty p | None => "None" end.

(** The port option both builders add: [-P] for [scp], [-p] otherwise. *)
Definition port_option (scp_port : option Z) (base_command : string) : list string :=
  if port_truthy scp_port then
    if decide (base_command = "scp") then ["-P"; port_str scp_port]
    else ["-p"; port_str scp_port]
  else [].

(** [_build_ssh_command(base_command)]; [environ] is [os.environ], the
    result is the command and the environment for the child process. *)
Definition _build_ssh_command (environ : gmap string string) (scp_port : option Z)
    (base_command : string) : list string * gmap string string :=
  let ssh_password := environ !! "SSH_PASSWORD" in
  let '(cmd, env) :=
    match ssh_password with
    | Some password =>
        if PyStr.truthy password
        then (["sshpass"; "-e"; base_command], <["SSHPASS" := password]> environ)
        else ([base_command], environ)
    | None => ([base_command], environ)
    end in
  let ssh_key := environ !! "SSH_KEY_PATH" in
  let cmd :=
    match ssh_key with
    | Some key =>
        if PyStr.truthy key && negb (opt_truthy ssh_password)
        then cmd ++ ["-i"; key] else cmd
    | None => cmd
    end in
  let cmd := cmd ++ port_option scp_port base_command in
  let cmd := cmd ++ ["-o"; "ControlMaster=auto";
                     "-o"; "ControlPath=" +:+ control_path;
                     "-o"; "ControlPersist=600"] in
  let cmd :=
    if opt_truthy ssh_password
    then cmd ++ ["-o"; "StrictHostKeyChecking=no"]
    else cmd ++ ["-o"; "BatchMode=yes"; "-o"; "StrictHostKeyChecking=no"] in
  (cmd, env).

(** [_build_controlpath_ssh_command(base_command)] *)
Definition _build_controlpath_ssh_command (scp_port : option Z)
    (base_command : string) : list string :=
  [base_command] ++ port_option scp_port base_command
    ++ ["-o"; "ControlPath=" +:+ control_path].

(** The search loop of [_open_ssh_connection]: the index of the first
    argument that is [ssh] or [scp], or 0. *)
Fixpoint find_ssh_pos (ssh_cmd : list string) (i : nat) : nat :=
  match ssh_cmd with
  | [] => 0
  | arg :: rest =>
      if bool_decide (arg ∈ ["ssh"; "scp"]) then i else find_ssh_pos rest (S i)
  end.

(** [l.insert(i, x)]: past the end it appends. *)
Definition list_insert_at {A} (i : nat) (x : A) (l : list A) : list A :=
  take i l ++ x :: drop i l.

(** [f"{self.scp_server}"] *)
Definition server_str (scp_server : option string) : string :=
  match scp_server with Some server => server | None => "None" end.

(** [_open_ssh_connection()]: the command and environment it hands to
    [subprocess.run]. *)
Definition _open_ssh_connection (environ : gmap string string)
    (scp_server : option string) (scp_port : option Z)
    : list string * gmap string string :=
  let '(ssh_cmd, env) := _build_ssh_command environ scp_port "ssh" in
  let ssh_pos := find_ssh_pos ssh_cmd 0 in
  let ssh_cmd := list_insert_at (ssh_pos + 1) "-MNf" ssh_cmd in
  (ssh_cmd ++ [server_str scp_server], env).

(** The command of [_close_ssh_connection()]. *)
Definition close_cmd (scp_server : option string) : list string :=
  ["ssh"; "-O"; "exit"; "-o"; "ControlPath=" +:+ control_path; server_str scp_server].

End Ssh.

(** ** The sheet loaders *)

Module Loaders.
Import PyStr Tsv Catalog Reconcile Names.

(** [s[i:]] for any integer [i]: a negative index counts from the end. *)
Definition slice_from (i : Z) (s : string) : string :=
  if decide (i < 0)%Z
  then from (Z.max 0 (Z.of_nat (String.length s) + i)) s
  else from i s.

(** [str.lower] on one code point below 256: the letters [A]-[Z] and the
    Latin-1 capitals (all of 192-222 but the multiplication sign). *)
Definition lower_char (c : ascii) : ascii :=
  let n := nat_of_ascii c in
  if bool_decide (65 ≤ n ≤ 90) || (bool_decide (192 ≤ n ≤ 222) && bool_decide (n ≠ 215))
  then ascii_of_nat (n + 32) else c.

Fixpoint lower (s : string) : string :=
  match s with
  | "" => ""
  | String c s' => String (lower_char c) (lower s')
  end.

(** [needle in s] for strings *)
Fixpoint contains (needle s : string) : bool :=
  startswith needle s ||
  match s with
  | "" => false
  | String _ s' => contains needle s'
  end.

(** [row.get(key, '')] *)
Definition cell (download : row) (key : string) : string := default "" (download !! key).

(** [game_id[game_id.rfind(':') + 1:] if ':' in game_id else game_id] *)
Definition short_name (game_id : string) : string :=
  if contains_char ":" game_id then from (rfind ":" game_id + 1) game_id else game_id.

(** What the loaders write: [self.games], [self.all_download_urls] and
    [self.games_metadata]. *)
Record Collected := mkCollected {
  games : gmap string string;
  all_download_urls : list string;
  games_metadata : list record;
}.

(** The local counters of a loader: [unique_urls] and the rows skipped. *)
Record Tally := mkTally {
  unique_urls : gset string;
  skipped_count : nat;          (* not in the compatibility sheet *)
  skipped_addons_count : nat;   (* add-ons, manuals, other categories *)
}.

Inductive failure :=
| KeyError (key : string)       (* download['url'] on a row without the column *)
| EmptySheet.                   (* 'Failed to fetch director demos' *)

(** [get_compatible_games]: the set after the loop over the rows. *)
Definition compatible_id (game : row) : string :=
  if truthy (cell game "id") then cell game "id"
  else if truthy (cell game "game_id") then cell game "game_id"
  else cell game "gameid".

Definition get_compatible_games (body : string) (compatible_game_ids : gset string)
    : gset string :=
  foldl (λ ids game,
           let game_id := compatible_id game in
           if truthy game_id then ids ∪ {[game_id]} else ids)
        compatible_game_ids (parse_tsv body).

(** [get_platforms_data] *)
Definition get_platforms_data (body : string) (platforms_data : gmap string row)
    : gmap string row :=
  foldl (λ platforms platform,
           let platform_id := cell platform "id" in
           if truthy platform_id then <[platform_id := platform]> platforms else platforms)
        platforms_data (parse_tsv body).

Section Rows.
Variable compatible_game_ids : gset string.
Variable platforms_data : gmap string row.

(** [self.platforms_data.get(platform_id, {}).get('name', platform_id)] *)
Definition platform_name (download : row) : string :=
  let platform_id := cell download "platform" in
  match platforms_data !! platform_id with
  | Some platform => default platform_id (platform !! "name")
  | None => platform_id
  end.

(** The four keys a row adds to [self.games]. *)
Definition add_keys (game_id url_cell value : string) (games : gmap string string)
    : gmap string string :=
  let short_name := short_name game_id in
  let filename := slice_from (rfind "/" url_cell) url_cell in
  <[short_name +:+ filename := value]>
    (<[game_id +:+ filename := value]>
       (<[short_name := value]>
          (<[game_id := value]> games))).

(** One row of [get_demos] ([title_column] is ['category']) or of
    [get_director_demos] ([title_column] is ['title']). *)
Definition demo_row (title_column : string) (acc : Collected * Tally) (download : row)
    : failure + Collected * Tally :=
  let '(c, t) := acc in
  let game_id := cell download "id" in
  if bool_decide (game_id ∉ compatible_game_ids) then
    inr (c, mkTally (unique_urls t) (S (skipped_count t)) (skipped_addons_count t))
  else
    match download !! "url" with
    | None => inl (KeyError "url")
    | Some demo_url =>
        let relative_path := _get_relative_path demo_url (basename demo_url) in
        let description :=
          strip (platform_name download +:+ " " +:+ cell download title_column +:+ " Demo") in
        let languages := _extract_languages download in
        inr (mkCollected
               (add_keys game_id demo_url demo_url (games c))
               (all_download_urls c ++ [demo_url])
               (add_or_update_game_metadata (games_metadata c) (Some game_id)
                  (Some relative_path) (Some description) (Some demo_url)
                  (Some languages) (Some (platform_name download)) None).1,
             mkTally (unique_urls t ∪ {[demo_url]}) (skipped_count t)
                     (skipped_addons_count t))
    end.

(** One row of [get_game_downloads]. *)
Definition download_row (acc : Collected * Tally) (download : row)
    : failure + Collected * Tally :=
  let '(c, t) := acc in
  let game_id := cell download "game_id" in
  let game_name := cell download "name" in
  let category := cell download "category" in
  if contains "addon" (lower game_name) || contains "manuals" (lower game_name)
     || bool_decide (category ≠ "games") then
    inr (c, mkTally (unique_urls t) (skipped_count t) (S (skipped_addons_count t)))
  else if bool_decide (game_id ∉ compatible_game_ids) then
    inr (c, mkTally (unique_urls t) (S (skipped_count t)) (skipped_addons_count t))
  else
    match download !! "url" with
    | None => inl (KeyError "url")
    | Some url_cell =>
        let download_url := "/frs/extras/" +:+ url_cell in
        let relative_path := _get_relative_path download_url (basename url_cell) in
        let description :=
          if startswith "SLUDGE engine game." game_name then
            let description := strip (from 19 game_name) in
            if truthy description then description else "Freeware"
          else game_name in
        let languages := _extract_languages download in
        inr (mkCollected
               (add_keys game_id url_cell download_url (games c))
               (all_download_urls c ++ [download_url])
               (add_or_update_game_metadata (games_metadata c) (Some game_id)
                  (Some relative_path) (Some description) (Some (host +:+ download_url))
                  (Some languages) (Some (platform_name download)) None).1,
             mkTally (unique_urls t ∪ {[download_url]}) (skipped_count t)
                     (skipped_addons_count t))
    end.

(** [for download in self.parse_tsv(body)], stopping at the first row
    that raises. *)
Fixpoint for_rows (step : Collected * Tally → row → failure + Collected * Tally)
    (rows : list row) (acc : Collected * Tally) : failure + Collected * Tally :=
  match rows with
  | [] => inr acc
  | download :: rest =>
      match step acc download with
      | inl e => inl e
      | inr acc' => for_rows step rest acc'
      end
  end.

Definition get_game_downloads (body : string) (c : Collected)
    : failure + Collected * Tally :=
  for_rows download_row (parse_tsv body) (c, mkTally ∅ 0 0).

Definition get_demos (body : string) (c : Collected) : failure + Collected * Tally :=
  for_rows (demo_row "category") (parse_tsv body) (c, mkTally ∅ 0 0).

Definition get_director_demos (body : string) (c : Collected)
    : failure + Collected * Tally :=
  if negb (truthy body) then inl EmptySheet
  else for_rows (demo_row "title") (parse_tsv body) (c, mkTally ∅ 0 0).

End Rows.

(** [_load_and_apply_metadata]: [items] is [self.metadata.items()], the
    entries of the override document in file order.  The values passed for
    [game_id], [description] and [platform] are read from the entry, which
    is also the override; what a non-string value would store there is
    overwritten by the same value from the override. *)
Definition as_str (v : option pyval) : option string :=
  match v with Some (PStr s) => Some s | _ => None end.

Definition apply_entry (games_metadata : list record) (item : string * record)
    : list record :=
  let '(relative_path, metadata_entry) := item in
  if pyval_truthy (default (PBool false) (metadata_entry !! "skip")) then games_metadata
  else if bool_decide (metadata_entry !! "id" = None) then games_metadata
  else
    (add_or_update_game_metadata games_metadata
       (as_str (metadata_entry !! "id")) (Some relative_path)
       (as_str (metadata_entry !! "description")) None None
       (as_str (metadata_entry !! "platform")) (Some metadata_entry)).1.

Definition _load_and_apply_metadata (items : list (string * record))
    (games_metadata : list record) : list record :=
  foldl apply_entry games_metadata items.

End Loaders.

(** * Theorems *)

(** ** Tabular parsing *)

Section TsvFacts.
Import PyStr Tsv.

Lemma parse_rows_filter headers lines result :
  parse_rows headers lines result =
  result ++ map (λ l, fill_row headers (split tab l))
                (filter (λ l, Is_true (truthy (strip l))) lines).
Proof.
  revert result. induction lines as [|line rest IH]; intros result; simpl.
  - by rewrite app_nil_r.
  - destruct (truthy (strip line)) eqn:E.
    + rewrite filter_cons_True by (by rewrite E).
      rewrite IH. simpl. by rewrite <- app_assoc.
    + rewrite filter_cons_False by (rewrite E; intros []). apply IH.
Qed.

Lemma fill_row_from_absent headers col values (r : row) h :
  (∀ j, j < length values → headers !! (col + j) ≠ Some h) →
  fill_row_from headers col values r !! h = r !! h.
Proof.
  revert col r. induction values as [|v rest IH]; intros col r Hno; [done|].
  simpl. rewrite IH.
  - case_decide; [|done]. destruct (headers !! col) as [h'|] eqn:E; [|done].
    rewrite lookup_insert_ne; [done|]. intros ->.
    apply (Hno 0); [simpl; lia|]. by rewrite Nat.add_0_r.
  - intros j Hj. replace (S col + j) with (col + S j) by lia.
    apply Hno. simpl. lia.
Qed.

Lemma fill_row_from_positional headers col values (r : row) j h v :
  values !! j = Some v →
  headers !! (col + j) = Some h →
  (∀ k, j < k < length values → headers !! (col + k) ≠ Some h) →
  fill_row_from headers col values r !! h = Some v.
Proof.
  revert col r j. induction values as [|v0 rest IH]; intros col r j Hv Hh Hlast;
    [done|].
  destruct j as [|j]; simpl in *.
  - injection Hv as ->. rewrite Nat.add_0_r in Hh.
    rewrite fill_row_from_absent.
    + rewrite decide_True by (by eapply lookup_lt_Some).
      rewrite Hh. apply lookup_insert_eq.
    + intros k Hk. replace (S col + k) with (col + S k) by lia.
      apply Hlast. lia.
  - apply (IH (S col) _ j); [done| |].
    + by replace (S col + j) with (col + S j) by lia.
    + intros k Hk. replace (S col + k) with (col + S k) by lia.
      apply Hlast. lia.
Qed.

Lemma fill_row_from_dom headers col values (r : row) :
  dom (fill_row_from headers col values r) =
  dom r ∪ list_to_set (take (length values) (drop col headers)).
Proof.
  revert col r. induction values as [|v rest IH]; intros col r; simpl.
  - set_solver.
  - rewrite IH. case_decide as Hlt.
    + destruct (lookup_lt_is_Some_2 headers col Hlt) as [h Hh]. rewrite Hh.
      rewrite (drop_S _ _ _ Hh). simpl. rewrite dom_insert_L. set_solver.
    + rewrite !drop_ge by lia. by rewrite !take_nil.
Qed.

End TsvFacts.

Lemma split_go_not_nil sep skip cur s : PyStr.split_go sep skip cur s ≠ [].
Proof.
  revert skip cur. induction s as [|c s IH]; intros skip cur; simpl; [done|].
  destruct skip; [|apply IH]. destruct (PyStr.startswith sep _); [done|apply IH].
Qed.

(** C9. [parse_tsv] takes the first line (lines end at CR LF) as the header
    row and returns one record per later line that is not blank, in order;
    a record maps header names to the values at the same positions (for a
    repeated header name the last position within the row wins); a header
    name with no position inside the row is absent from the record, so a row
    shorter than the header has no entry, not an empty string, for its
    missing trailing fields; an empty body gives the empty list. *)
Theorem parse_tsv_positional_records :
  Tsv.parse_tsv "" = [] ∧
  (∀ text, ∃ first rest,
      PyStr.split Tsv.crlf text = first :: rest ∧
      Tsv.parse_tsv text =
        map (λ line, Tsv.fill_row (PyStr.split Tsv.tab first) (PyStr.split Tsv.tab line))
            (filter (λ line, Is_true (PyStr.truthy (PyStr.strip line))) rest)) ∧
  (∀ (headers values : list string),
      (∀ col h v,
          headers !! col = Some h → values !! col = Some v →
          (∀ k, col < k < length values → headers !! k ≠ Some h) →
          Tsv.fill_row headers values !! h = Some v) ∧
      (∀ h, h ∉ take (length values) headers →
            Tsv.fill_row headers values !! h = None) ∧
      (∀ j h, NoDup headers → length values ≤ j → headers !! j = Some h →
              Tsv.fill_row headers values !! h = None) ∧
      dom (Tsv.fill_row headers values) = list_to_set (take (length values) headers)).
Proof.
  assert (Habs : ∀ (headers values : list string) h,
             h ∉ take (length values) headers →
             Tsv.fill_row headers values !! h = None).
  { intros headers values h Hnot. unfold Tsv.fill_row.
    rewrite fill_row_from_absent; [done|].
    intros j Hj Hh. apply Hnot. apply list_elem_of_lookup. exists j.
    by rewrite lookup_take_lt. }
  split; [done|]. split.
  - intros text. unfold Tsv.parse_tsv.
    destruct (PyStr.split Tsv.crlf text) as [|first rest] eqn:E.
    + by apply split_go_not_nil in E.
    + exists first, rest. split; [done|]. by rewrite parse_rows_filter.
  - intros headers values. repeat split.
    + intros col h v Hh Hv Hlast. unfold Tsv.fill_row.
      by apply (fill_row_from_positional headers 0 values ∅ col).
    + apply Habs.
    + intros j h Hnd Hj Hh. apply Habs.
      intros [i Hi]%list_elem_of_lookup.
      apply lookup_take_Some in Hi as [Hi Hlt].
      assert (i = j) by (eapply NoDup_lookup; eauto). lia.
    + unfold Tsv.fill_row. rewrite fill_row_from_dom, drop_0. set_solver.
Qed.

Lemma parse_tsv_positional_records_witness :
  Tsv.fill_row ["id"; "name"; "url"] ["7"; "x"] !! "name" = Some "x" ∧
  Tsv.fill_row ["id"; "name"; "url"] ["7"; "x"] !! "url" = None.
Proof.
  destruct parse_tsv_positional_records as (_ & _ & Hrow).
  destruct (Hrow ["id"; "name"; "url"] ["7"; "x"]) as (Hpos & _ & Hshort & _).
  split.
  - apply (Hpos 1); [reflexivity|reflexivity|]. simpl. intros k ?. lia.
  - apply (Hshort 2); [|simpl; lia|reflexivity].
    apply (bool_decide_unpack _). vm_compute. exact I.
Defined.

(** ** The metadata catalog *)

Section CatalogFacts.
Import Catalog.

Lemma remove_first_absent x l : x ∉ l → remove_first x l = l.
Proof.
  induction l as [|y l IH]; [done|]. intros Hnot. simpl.
  rewrite decide_False by set_solver. f_equal. apply IH. set_solver.
Qed.


Lemma store_languages_lookup l (g : record) :
  store_languages (Some l) g !! "languages" =
  match remove_first "en" l with
  | [] => g !! "languages"
  | (_ :: _) as l' => Some (PList l')
  end.
Proof.
  unfold store_languages. destruct l as [|x l]; [done|].
  case_decide as Hin.
  - destruct (remove_first "en" (x :: l)); [done|apply lookup_insert_eq].
  - rewrite (remove_first_absent _ _ Hin). apply lookup_insert_eq.
Qed.

Lemma fresh_record_languages game_id relative_path description download_url l platform :
  fresh_record game_id relative_path description download_url (Some l) platform
    !! "languages" =
  match remove_first "en" l with
  | [] => None
  | (_ :: _) as l' => Some (PList l')
  end.
Proof.
  unfold fresh_record.
  assert (Hplat : ∀ (g : record) v, (<["platform" := v]> g) !! "languages" = g !! "languages")
    by (intros; by rewrite lookup_insert_ne).
  assert (Hbase : ∀ g : record,
             g !! "languages" = None →
             store_languages (Some l) g !! "languages" =
             match remove_first "en" l with
             | [] => None
             | (_ :: _) as l' => Some (PList l')
             end).
  { intros g Hg. rewrite store_languages_lookup.
    by destruct (remove_first "en" l). }
  destruct (opt_truthy platform); rewrite ?Hplat;
    destruct (opt_truthy download_url); apply Hbase;
    by rewrite ?lookup_insert_ne, lookup_empty.
Qed.

(** The callers obtain their language list from [_extract_languages],
    which never repeats a value. *)
Lemma _extract_languages_NoDup data : NoDup (_extract_languages data).
Proof.
  unfold _extract_languages.
  assert (Hinv : ∀ cols acc, NoDup acc →
    NoDup (foldl (λ languages col,
             let lang_value := PyStr.strip (default "" (data !! col)) in
             if PyStr.truthy lang_value && bool_decide (lang_value ∉ languages)
             then languages ++ [lang_value] else languages) acc cols)).
  { induction cols as [|c cols IH]; intros acc Hacc; [done|]. simpl.
    apply IH. destruct (PyStr.truthy _); [|done]. simpl.
    case_bool_decide as Hn; [|done].
    apply NoDup_app. split; [done|]. split; [|apply NoDup_singleton].
    intros y Hy ->%list_elem_of_singleton. done. }
  apply Hinv. constructor.
Qed.

End CatalogFacts.




(** ** Temporary names *)

Lemma string_length_app (a b : string) :
  String.length (a +:+ b) = String.length a + String.length b.
Proof.
  induction a as [|c a IH]; [done|].
  change (String c a +:+ b) with (String c (a +:+ b)). simpl. by rewrite IH.
Qed.

Lemma string_app_ne (a b : string) : b ≠ "" → a ≠ a +:+ b.
Proof.
  intros Hb Heq. apply (f_equal String.length) in Heq.
  rewrite string_length_app in Heq. destruct b; [done|]. simpl in Heq. lia.
Qed.

Lemma downloading_ne filename : filename ≠ Script.downloading filename.
Proof. by apply string_app_ne. Qed.

Lemma uploading_ne folder_name : folder_name ≠ Script.uploading folder_name.
Proof. by apply string_app_ne. Qed.


(** ** Downloads *)

Section DownloadFacts.
Import World Prim Script.


End DownloadFacts.


(** ** Extraction *)

Section ExtractFacts.
Import World Prim Zip Script.

(** C8. When the folder named after the archive's base name exists,
    [extract_zip] does no extraction work: it returns that folder, leaves
    the download directory (the archive included) and the mirror as they
    are, and only prints the notice; so a second call returns the same
    folder again. *)
Theorem extract_zip_existing_folder (zip_name : string) (s : State) :
  is_Some (fs s !! stem zip_name) →
  ∃ s1 s2,
    extract_zip (Some zip_name) s = Ok (stem zip_name) s1 ∧
    extract_zip (Some zip_name) s1 = Ok (stem zip_name) s2 ∧
    fs s1 = fs s ∧ fs s2 = fs s ∧
    remote s1 = remote s ∧ remote s2 = remote s ∧
    events s1 = events s ++ [Says (MsgAlreadyExtracted (stem zip_name))].
Proof.
  intros Hthere. destruct s as [f r t ev pr]. simpl in Hthere.
  cbv [extract_zip bind exists_ say ret]. simpl.
  rewrite !bool_decide_true by done.
  eexists _, _. split; [reflexivity|]. simpl.
  rewrite bool_decide_true by done. by split.
Qed.

Lemma extract_zip_existing_folder_witness :
  let s := mkState {[ "Foo" := Dir [(["a.txt"], TFile "A")];
                      "Foo.zip" := File (ZipArchive [mkZipInfo "Foo/a.txt" "A"]) ]}
                   ∅ 0 [] [] in
  ∃ s1, extract_zip (Some "Foo.zip") s = Ok "Foo" s1 ∧ fs s1 = fs s.
Proof.
  intros s.
  destruct (extract_zip_existing_folder "Foo.zip" s) as (s1 & s2 & H1 & _ & Hfs & _).
  - vm_compute. eexists. reflexivity.
  - exists s1. split; [exact H1|exact Hfs].
Defined.

End ExtractFacts.

(** ** The unwrap rule *)

Section UnwrapFacts.
Import World Prim Zip Script Samples.









(** The two archives of the specification's example, with the enclosing
    folder recorded by a directory entry. *)
Example unwrap_with_directory_entry :
  fs (state_of (extract_zip (Some "Foo.zip")
        (mkState {[ "Foo.zip" := File (ZipArchive foo_archive) ]} ∅ 0 [] [])))
  = {[ "Foo" := Dir [(["a.txt"], TFile "A"); (["sub"; "b.txt"], TFile "B")] ]}.
Proof. vm_compute. reflexivity. Qed.

Example root_file_blocks_unwrap :
  fs (state_of (extract_zip (Some "Foo.zip")
        (mkState {[ "Foo.zip" := File (ZipArchive
                      [mkZipInfo "a.txt" "A"; mkZipInfo "Foo/" ""; mkZipInfo "Foo/b.txt" "B"]) ]}
                 ∅ 0 [] [])))
  = {[ "Foo" := Dir [(["a.txt"], TFile "A"); (["Foo"], TDir); (["Foo"; "b.txt"], TFile "B")] ]}.
Proof. vm_compute. reflexivity. Qed.


(** A member outside the single root folder makes [relative_to] raise:
    the extraction stops and the archive stays. *)
Example member_outside_root_folder_raises :
  ∃ s', extract_zip (Some "Foo.zip")
          (mkState {[ "Foo.zip" := File (ZipArchive
                        [mkZipInfo "Foo/" ""; mkZipInfo "Bar/b.txt" "B"]) ]} ∅ 0 [] [])
        = Raise (ValueError "Bar/b.txt" "Foo/") s' ∧
        is_Some (fs s' !! "Foo.zip").
Proof. eexists. split; [vm_compute; reflexivity|]. vm_compute. eexists. reflexivity. Qed.

End UnwrapFacts.

(** ** Uploads *)

Section UploadFacts.
Import World Prim Script Samples.






End UploadFacts.

(** ** Rules for runs *)

Import World Prim Zip Script Reconcile Wp.

Lemma wp_ret {A} (a : A) Q R s : Q a s → wp (ret a) Q R s.
Proof. done. Qed.

Lemma wp_raise {A} e (Q : A → State → Prop) R s : R e s → wp (raise e) Q R s.
Proof. done. Qed.

Lemma wp_bind {A B} (m : M A) (k : A → M B) Q R s :
  wp m (λ a s', wp (k a) Q R s') R s → wp (bind m k) Q R s.
Proof. unfold wp, bind. by destruct (m s). Qed.

Lemma wp_try_except {A} (m : M A) caught h Q R s :
  wp m Q (λ e s', if caught e : bool then wp (h e) Q R s' else R e s') s →
  wp (try_except m caught h) Q R s.
Proof.
  unfold wp, try_except. destruct (m s) as [a s'|e s']; [done|].
  by destruct (caught e).
Qed.

Lemma wp_mono {A} (m : M A) (Q Q' : A → State → Prop) (R R' : exn → State → Prop) s :
  wp m Q R s →
  (∀ a s', Q a s' → Q' a s') → (∀ e s', R e s' → R' e s') →
  wp m Q' R' s.
Proof. unfold wp. destruct (m s); eauto. Qed.

(** A step that completes no upload, followed by the rest. *)
Lemma wp_bind_quiet {A B} (m : M A) (k : A → M B) Q R s :
  quiet m →
  (∀ a s', uploads s' = uploads s → wp (k a) Q R s') →
  (∀ e s', uploads s' = uploads s → R e s') →
  wp (bind m k) Q R s.
Proof.
  intros Hq Hk HR. apply wp_bind. eapply wp_mono; [apply Hq|..]; simpl; eauto.
Qed.

Lemma quiet_ret {A} (a : A) : quiet (ret a).
Proof. by intros s. Qed.

Lemma quiet_raise {A} e : quiet (@raise A e).
Proof. by intros s. Qed.

Lemma quiet_bind {A B} (m : M A) (k : A → M B) :
  quiet m → (∀ a, quiet (k a)) → quiet (bind m k).
Proof.
  intros Hm Hk s. apply wp_bind_quiet; [done| |done].
  intros a s' Hs'. eapply wp_mono; [apply Hk|..]; simpl; intros; congruence.
Qed.

Lemma quiet_try_except {A} (m : M A) caught h :
  quiet m → (∀ e, quiet (h e)) → quiet (try_except m caught h).
Proof.
  intros Hm Hh s. apply wp_try_except.
  eapply wp_mono; [apply Hm|..]; simpl; [done|].
  intros e s' Hs'. destruct (caught e); [|done].
  eapply wp_mono; [apply Hh|..]; simpl; intros; congruence.
Qed.

Lemma quiet_if {A} (b : bool) (m1 m2 : M A) :
  quiet m1 → quiet m2 → quiet (if b then m1 else m2).
Proof. by destruct b. Qed.

Lemma uploads_snoc s s' e :
  events s' = events s ++ [e] →
  uploads s' = uploads s + (if is_uploaded e then 1 else 0).
Proof.
  unfold uploads. intros ->. rewrite filter_app, length_app. f_equal.
  destruct (is_uploaded e) eqn:E.
  - by rewrite filter_cons_True by (by rewrite E).
  - by rewrite filter_cons_False by (rewrite E; intros []).
Qed.

Lemma uploads_same s s' : events s' = events s → uploads s' = uploads s.
Proof. unfold uploads. by intros ->. Qed.

Lemma quiet_say m : (∀ n, m ≠ MsgUploaded n) → quiet (say m).
Proof.
  intros Hm s. unfold wp, say. rewrite (uploads_snoc s _ (Says m)) by done.
  destruct m; simpl; try lia. by destruct (Hm folder_name).
Qed.

Lemma quiet_log e : is_uploaded e = false → quiet (log e).
Proof.
  intros He s. unfold wp, log. rewrite (uploads_snoc s _ e) by done.
  rewrite He. lia.
Qed.

Lemma quiet_set_fs f : quiet (set_fs f).
Proof. by intros [? ? ? ? ?]. Qed.

Lemma quiet_exists_ name : quiet (exists_ name).
Proof. by intros s. Qed.

Lemma quiet_is_dir name : quiet (is_dir name).
Proof. by intros s. Qed.

Lemma quiet_unlink name : quiet (unlink name).
Proof. intros [f ? ? ? ?]. unfold wp, unlink. simpl. by destruct (f !! name) as [[]|]. Qed.

Lemma quiet_rmtree name : quiet (rmtree name).
Proof. intros [f ? ? ? ?]. unfold wp, rmtree. simpl. by destruct (f !! name) as [[]|]. Qed.

Lemma quiet_rename src dst : quiet (rename src dst).
Proof.
  intros [f ? ? ? ?]. unfold wp, rename. simpl.
  destruct (f !! src); [|done]. by destruct (f !! dst) as [[]|].
Qed.

Lemma quiet_run env cmd : quiet (run env cmd).
Proof.
  intros [f r k ev pr]. unfold wp, run. simpl.
  destruct (exec _ _ _ _) as [[rc out] r'].
  rewrite (uploads_snoc (mkState f r k ev pr) _ (Ran cmd rc)) by done. simpl. lia.
Qed.

Create HintDb quiet.

#[global] Hint Resolve quiet_ret quiet_raise quiet_set_fs quiet_exists_ quiet_is_dir
  quiet_unlink quiet_rmtree quiet_rename quiet_run : quiet.

(** Breaks a goal [quiet m] along the structure of [m]. *)
Ltac quiet_step :=
  first
    [ solve [auto with quiet]
    | apply quiet_say; by intros ?
    | apply quiet_log; reflexivity
    | apply quiet_bind
    | apply quiet_try_except
    | apply quiet_if
    | progress intros
    | match goal with
      | |- quiet (match ?x with _ => _ end) => destruct x
      end ].

Ltac quiet_tac := repeat quiet_step.

Lemma quiet_remove_path name : quiet (remove_path name).
Proof. unfold remove_path. quiet_tac. Qed.

Lemma quiet_unlink_if_exists name : quiet (unlink_if_exists name).
Proof. unfold unlink_if_exists. quiet_tac. Qed.

Lemma quiet_run_checked env cmd : quiet (run_checked env cmd).
Proof. unfold run_checked. quiet_tac. Qed.

Lemma quiet_urlretrieve env url temp : quiet (urlretrieve env url temp).
Proof.
  unfold urlretrieve. apply quiet_bind; [quiet_tac|]. intros _.
  destruct (net env url); [|quiet_tac|].
  - intros [f ? ? ? ?]. unfold wp. simpl. by destruct (f !! temp) as [[]|].
  - intros [f ? ? ? ?]. unfold wp. simpl. by destruct (f !! temp) as [[]|].
Qed.

#[global] Hint Resolve quiet_remove_path quiet_unlink_if_exists quiet_run_checked
  quiet_urlretrieve : quiet.

Lemma quiet_download_file env url filename : quiet (download_file env url filename).
Proof. unfold download_file. quiet_tac. Qed.

Lemma quiet_write_tree extract_dir t : quiet (write_tree extract_dir t).
Proof. by intros [? ? ? ? ?]. Qed.

Lemma quiet_open_zip zip_name : quiet (open_zip zip_name).
Proof.
  intros [f ? ? ? ?]. unfold wp, open_zip. simpl.
  by destruct (f !! zip_name) as [[[]|]|].
Qed.

#[global] Hint Resolve quiet_download_file quiet_write_tree quiet_open_zip : quiet.

Lemma quiet_extract_members extract_dir members : quiet (extract_members extract_dir members).
Proof.
  unfold extract_members. destruct (single_root_folder _); [|quiet_tac].
  destruct (unwrap_members _ _ _) as [written stopped]. quiet_tac.
Qed.

#[global] Hint Resolve quiet_extract_members : quiet.

Lemma quiet_extract_zip zip_path : quiet (extract_zip zip_path).
Proof. unfold extract_zip. quiet_tac. Qed.

Lemma quiet_verify_folders env lines folders : quiet (verify_folders env lines folders).
Proof.
  revert folders. induction lines as [|line lines IH]; intros folders; simpl; quiet_tac.
Qed.

#[global] Hint Resolve quiet_extract_zip quiet_verify_folders : quiet.

Lemma quiet_get_remote_folders env self : quiet (get_remote_folders env self).
Proof. unfold get_remote_folders. quiet_tac. Qed.

Lemma quiet_clean_completed has filename target_name :
  quiet (clean_completed has filename target_name).
Proof. unfold clean_completed. quiet_tac. Qed.

Lemma quiet_add_processed self target_name : quiet (add_processed self target_name).
Proof.
  unfold add_processed. destruct (Catalog.find_existing _ _ _) as [[i m]|]; [|quiet_tac].
  destruct (Catalog.dict_truthy m); [|quiet_tac]. by intros [? ? ? ? ?].
Qed.

Lemma quiet_check_orphans remote_folders : quiet (check_orphans remote_folders).
Proof. unfold check_orphans. quiet_tac. Qed.

#[global] Hint Resolve quiet_get_remote_folders quiet_clean_completed quiet_add_processed
  quiet_check_orphans : quiet.

(** ** Reconciliation *)

Lemma remove_path_run name s :
  remove_path name s =
  Ok () (mkState (delete name (fs s)) (remote s) (tick s) (events s)
                 (processed_games_metadata s)).
Proof.
  destruct s as [f r k ev pr].
  cbv [remove_path bind exists_ is_dir rmtree unlink set_fs ret]. simpl.
  destruct (f !! name) as [[c|t]|] eqn:E; simpl; repeat (rewrite E; simpl).
  - done.
  - done.
  - by rewrite delete_id by done.
Qed.

Lemma unlink_if_exists_run name s :
  (∀ t, fs s !! name ≠ Some (Dir t)) →
  unlink_if_exists name s =
  Ok () (mkState (delete name (fs s)) (remote s) (tick s) (events s)
                 (processed_games_metadata s)).
Proof.
  intros Hnodir. destruct s as [f r k ev pr]. simpl in *.
  cbv [unlink_if_exists bind exists_ unlink set_fs ret]. simpl.
  destruct (f !! name) as [[c|t]|] eqn:E; simpl; repeat (rewrite E; simpl).
  - done.
  - by destruct (Hnodir t).
  - by rewrite delete_id by done.
Qed.

Lemma process_games_app env self max before after l s :
  process_games env self max (before ++ after) l s =
  bind (process_games env self max before l) (process_games env self max after) s.
Proof.
  revert l s. induction before as [|g before IH]; intros l s; simpl; [done|].
  unfold bind.
  destruct (process_game env self max g l s) as [l' s'|e s']; [|done].
  rewrite IH. reflexivity.
Qed.

(** An item without any source URL. *)
Lemma no_source_url_no_download g :
  gd_sheet g = None →
  (gd_download_url g = None ∨ gd_download_url g = Some "") →
  resolve_source g = (false, None, None).
Proof. unfold resolve_source. intros -> [-> | ->]; done. Qed.

(** C6. An item that has no source URL, is not in the snapshot of the
    mirror and is not marked skip stops the loop: the iteration prints the
    error line and raises the missing-source error, and no later item is
    processed, whatever follows it in the list. *)
Theorem missing_source_aborts_run (env : Env) (self : Self) (max_transfers : option Z)
    (before later : list game_data) (g : game_data) (l0 l : Locals) (s0 s : State) :
  gd_sheet g = None →
  (gd_download_url g = None ∨ gd_download_url g = Some "") →
  gd_target_name g ∉ remote_folders l →
  is_skipped self (gd_target_name g) = false →
  process_games env self max_transfers before l0 s0 = Ok l s →
  let s' := mkState (fs s) (remote s) (tick s)
                    (events s ++ [Says (MsgMissingSource (gd_target_name g))])
                    (processed_games_metadata s) in
  process_game env self max_transfers g l s = Raise (MissingSource (gd_target_name g)) s' ∧
  process_games env self max_transfers (before ++ g :: later) l0 s0
    = Raise (MissingSource (gd_target_name g)) s' ∧
  ∀ snapshot,
    l0 = mkLocals 0 false snapshot →
    reconcile env self max_transfers (before ++ g :: later) snapshot s0
      = Raise (MissingSource (gd_target_name g)) s'.
Proof.
  intros Hsheet Hurl Hremote Hskip Hbefore s'.
  assert (Hone : process_game env self max_transfers g l s
                 = Raise (MissingSource (gd_target_name g)) s').
  { unfold process_game. rewrite (no_source_url_no_download g Hsheet Hurl).
    unfold folder_exists_on_remote.
    destruct (negb (configured self)); [|rewrite decide_False by done];
      rewrite Hskip; reflexivity. }
  assert (Hall : process_games env self max_transfers (before ++ g :: later) l0 s0
                 = Raise (MissingSource (gd_target_name g)) s').
  { rewrite process_games_app. unfold bind. rewrite Hbefore. simpl.
    unfold bind. by rewrite Hone. }
  split; [done|]. split; [done|].
  intros snapshot ->. unfold reconcile, bind. by rewrite Hall.
Qed.

Lemma missing_source_aborts_run_witness :
  let self := mkSelf (Some "sync@mirror.example") (Some "/srv/games") ∅ ∅ [] in
  let s0 := mkState ∅ {[ "other" := Whole ]} 0 [] [] in
  reconcile (Samples.breaks_at 99) self None
    [mkGame None "lost-game" None;
     mkGame (Some ("https://downloads.scummvm.org/frs/demos/a.zip", "a.zip")) "a" None]
    {[ "other" ]} s0
  = Raise (MissingSource "lost-game")
      (mkState ∅ {[ "other" := Whole ]} 0 [Says (MsgMissingSource "lost-game")] []).
Proof.
  intros self s0.
  refine (proj2 (proj2 (missing_source_aborts_run (Samples.breaks_at 99) self None []
            [mkGame (Some ("https://downloads.scummvm.org/frs/demos/a.zip", "a.zip")) "a" None]
            (mkGame None "lost-game" None) (mkLocals 0 false {[ "other" ]})
            (mkLocals 0 false {[ "other" ]}) s0 s0 _ _ _ _ _)) {[ "other" ]} _).
  - reflexivity.
  - left. reflexivity.
  - simpl. apply (bool_decide_unpack _). vm_compute. exact I.
  - reflexivity.
  - reflexivity.
  - reflexivity.
Defined.

Lemma find_existing_get v i games_metadata j m :
  Catalog.find_existing v i games_metadata = Some (j, m) →
  Catalog.get m "relative_path" = v.
Proof.
  revert i. induction games_metadata as [|m0 rest IH]; intros i; simpl; [done|].
  case_decide as Hm; [|apply IH]. by intros [= <- <-].
Qed.

Lemma find_existing_truthy target i games_metadata j m :
  Catalog.find_existing (Catalog.PStr target) i games_metadata = Some (j, m) →
  Catalog.dict_truthy m = true.
Proof.
  intros Hfind%find_existing_get. unfold Catalog.dict_truthy.
  apply bool_decide_eq_true. intros ->. unfold Catalog.get in Hfind.
  by rewrite lookup_empty in Hfind.
Qed.



Import Budget.

(** ** Counting uploads through the loop *)

Lemma wp_bind_quiet_n {A B} (m : M A) (k : A → M B) Q R s n :
  quiet m → uploads s = n →
  (∀ a s', uploads s' = n → wp (k a) Q R s') →
  (∀ e s', uploads s' = n → R e s') →
  wp (bind m k) Q R s.
Proof.
  intros Hq <- Hk HR. apply wp_bind_quiet; auto.
Qed.

Lemma wp_quiet_n {A} (m : M A) s n :
  quiet m → uploads s = n →
  wp m (λ _ s', uploads s' = n) (λ _ s', uploads s' = n) s.
Proof. intros Hq <-. apply Hq. Qed.

(** A quiet step in front of the rest, with the number of uploads so far
    named [n]. *)
Ltac wp_quiet n :=
  eapply (wp_bind_quiet_n _ _ _ _ _ n);
  [ solve [quiet_tac] | assumption | | by intros ].

Lemma upload_folder_counted env self folder_name s n :
  uploads s = n →
  wp (upload_folder env self folder_name)
     (λ uploaded s', uploads s' = n + (if uploaded : bool then 1 else 0))
     (λ _ s', uploads s' = n) s.
Proof.
  intros Hn. unfold upload_folder. destruct (negb (configured self)).
  - wp_quiet n. intros _ s1 H1. apply wp_ret. lia.
  - wp_quiet n. intros _ s1 H1. apply wp_try_except.
    assert (Hhandler : ∀ (e : exn) s',
      uploads s' = n →
      if (match e with CalledProcessError _ _ => true | _ => false end)
      then wp (say (MsgUploadFailed folder_name) ;;;
               run env (RmRf (uploading folder_name)) ;;;
               say (MsgCleanedFailedUpload (uploading folder_name)) ;;;
               ret false)%sync
              (λ uploaded s'', uploads s'' = n + (if uploaded : bool then 1 else 0))
              (λ _ s'', uploads s'' = n) s'
      else uploads s' = n).
    { intros e s' Hs'. destruct e; try done.
      wp_quiet n. intros _ s2 H2. wp_quiet n. intros _ s3 H3.
      wp_quiet n. intros _ s4 H4. apply wp_ret. lia. }
    eapply (wp_bind_quiet_n _ _ _ _ _ n); [quiet_tac|done| |apply Hhandler].
    intros _ s2 H2.
    eapply (wp_bind_quiet_n _ _ _ _ _ n); [quiet_tac|done| |apply Hhandler].
    intros _ s3 H3. apply wp_bind.
    unfold wp at 1, say. apply wp_ret.
    rewrite (uploads_snoc s3 _ (Says (MsgUploaded folder_name))) by done. simpl. lia.
Qed.

Lemma counted_same max_transfers l s s' :
  uploads s' = uploads s → counted max_transfers l s l s'.
Proof. intros Heq. unfold counted. rewrite Heq. repeat split; intros; lia. Qed.

Lemma counted_count_upload max_transfers l s s' (uploaded : bool) :
  match max_transfers with
  | None => true
  | Some m => bool_decide (transfer_count l < m)%Z
  end = true →
  uploads s' = uploads s + (if uploaded then 1 else 0) →
  counted max_transfers l s (count_upload uploaded l) s' ∧
  remote_folders (count_upload uploaded l) = remote_folders l.
Proof.
  intros Hallow Hup. split; [|by destruct uploaded].
  unfold counted. rewrite Hup. destruct uploaded; simpl.
  - split; [lia|]. split; [lia|]. intros m ->.
    apply bool_decide_eq_true in Hallow. lia.
  - split; [lia|]. split; [lia|]. intros; lia.
Qed.

Lemma counted_trans max_transfers l s l1 s1 l2 s2 :
  counted max_transfers l s l1 s1 → counted max_transfers l1 s1 l2 s2 →
  counted max_transfers l s l2 s2.
Proof.
  intros (H1 & H2 & H3) (H4 & H5 & H6). split; [lia|]. split; [lia|].
  intros m Hm. specialize (H3 m Hm). specialize (H6 m Hm). lia.
Qed.

Lemma transfer_counted env self max_transfers url filename target_name l s :
  wp (transfer env self max_transfers url filename target_name l)
     (λ out s', remote_folders out.1 = remote_folders l ∧
                counted max_transfers l s out.1 s')
     (λ _ s', uploads s' = uploads s) s.
Proof.
  remember (uploads s) as n eqn:Hn. symmetry in Hn.
  assert (Hsame : ∀ s', uploads s' = n → counted max_transfers l s l s')
    by (intros s' Hs'; apply counted_same; congruence).
  unfold transfer.
  set (allow := match max_transfers with
                | None => true
                | Some m => bool_decide (transfer_count l < m)%Z
                end).
  wp_quiet n. intros _ s1 H1.
  wp_quiet n. intros folder_there s2 H2.
  destruct (PyStr.endswith ".zip" filename && folder_there).
  - apply wp_bind. destruct allow eqn:Hallow.
    + eapply wp_mono; [apply (upload_folder_counted _ _ _ _ n); done| |by intros].
      simpl. intros uploaded s3 H3.
      unfold wp, bind. rewrite remove_path_run. simpl.
      destruct (counted_count_upload max_transfers l s
                  (mkState (delete target_name (fs s3)) (remote s3) (tick s3)
                           (events s3) (processed_games_metadata s3)) uploaded)
        as [Hc Hrf]; [done| |by split].
      rewrite Hn. rewrite <- H3. by apply uploads_same.
    + apply wp_ret. unfold wp, bind. rewrite remove_path_run. simpl.
      split; [done|]. apply Hsame. rewrite <- H2. by apply uploads_same.
  - wp_quiet n. intros stale s3 H3. wp_quiet n. intros _ s4 H4.
    destruct allow eqn:Hallow.
    + wp_quiet n. intros file_there s5 H5. wp_quiet n. intros downloaded_file s6 H6.
      destruct (PyStr.endswith ".zip" filename).
      * wp_quiet n. intros extracted_folder s7 H7. apply wp_bind.
        eapply wp_mono; [apply (upload_folder_counted _ _ _ _ n); done| |by intros].
        simpl. intros uploaded s8 H8. apply wp_ret. simpl.
        destruct (counted_count_upload max_transfers l s s8 uploaded)
          as [Hc Hrf]; [done|congruence|by split].
      * apply wp_ret. simpl. split; [done|]. by apply Hsame.
    + wp_quiet n. intros _ s5 H5. wp_quiet n. intros _ s6 H6.
      wp_quiet n. intros _ s7 H7. apply wp_ret. simpl. split; [done|]. by apply Hsame.
Qed.

Lemma counted_from max_transfers l0 l s l' s' :
  transfer_count l0 = transfer_count l →
  counted max_transfers l s l' s' → counted max_transfers l0 s l' s'.
Proof. unfold counted. by intros ->. Qed.

Lemma counted_later max_transfers l s l' s' s'' :
  counted max_transfers l s l' s' → uploads s'' = uploads s' →
  counted max_transfers l s l' s''.
Proof. unfold counted. by intros ? ->. Qed.

Lemma process_game_counted env self max_transfers g l s :
  wp (process_game env self max_transfers g l)
     (λ l' s',
        remote_folders l' =
          (folder_exists_on_remote self (gd_target_name g) (remote_folders l)).2 ∧
        counted max_transfers l s l' s')
     (λ _ s', ∃ l', counted max_transfers l s l' s') s.
Proof.
  remember (uploads s) as n eqn:Hn. symmetry in Hn.
  unfold process_game.
  destruct (resolve_source g) as [[has url] filename].
  destruct (folder_exists_on_remote self (gd_target_name g) (remote_folders l))
    as [exists_on_remote rf'].
  set (l1 := mkLocals (transfer_count l) (any_uploads_occurred l) rf').
  assert (Hl1 : ∀ s', uploads s' = n → counted max_transfers l s l1 s').
  { intros s' Hs'. apply (counted_from _ _ l1); [done|].
    apply counted_same. congruence. }
  simpl. apply wp_bind.
  eapply (wp_mono _ (λ out s', remote_folders out.1 = rf' ∧
                               counted max_transfers l s out.1 s')
                    _ (λ _ s', uploads s' = n)).
  - destruct (is_skipped self (gd_target_name g) && negb exists_on_remote).
    { wp_quiet n. intros _ s1 H1. apply wp_ret. simpl. auto. }
    destruct (is_skipped self (gd_target_name g) && exists_on_remote).
    { wp_quiet n. intros _ s1 H1. wp_quiet n. intros _ s2 H2.
      apply wp_ret. simpl. auto. }
    destruct exists_on_remote.
    { wp_quiet n. intros _ s1 H1. wp_quiet n. intros _ s2 H2.
      apply wp_ret. simpl. auto. }
    destruct (negb has).
    { wp_quiet n. intros _ s1 H1. by apply wp_raise. }
    destruct url as [url|]; [|by apply wp_raise].
    destruct filename as [filename|]; [|by apply wp_raise].
    eapply wp_mono; [apply transfer_counted|..]; simpl.
    + intros out s' [Hrf Hc]. split; [done|]. by apply (counted_from _ l l1).
    + intros; congruence.
  - simpl. intros [l2 should_process_metadata] s' [Hrf Hc]. simpl in *.
    eapply (wp_bind_quiet_n _ _ _ _ _ (uploads s')); [quiet_tac|done| |].
    + intros _ s2 H2. apply wp_ret. split; [done|]. by apply (counted_later _ _ _ _ s').
    + intros e s2 H2. exists l2. by apply (counted_later _ _ _ _ s').
  - intros e s' Hs'. exists l1. by apply Hl1.
Qed.

Lemma process_games_counted env self max_transfers items l s :
  wp (process_games env self max_transfers items l)
     (λ l' s', remote_folders l' = snapshot_after self items (remote_folders l) ∧
               counted max_transfers l s l' s')
     (λ _ s', ∃ l', counted max_transfers l s l' s') s.
Proof.
  revert l s. induction items as [|g items IH]; intros l s; simpl.
  - apply wp_ret. split; [done|]. by apply counted_same.
  - apply wp_bind. eapply wp_mono; [apply process_game_counted|..]; simpl.
    + intros l1 s1 [Hrf1 Hc1]. eapply wp_mono; [apply IH|..]; simpl.
      * intros l2 s2 [Hrf2 Hc2]. split.
        -- rewrite Hrf2, Hrf1. reflexivity.
        -- by apply (counted_trans _ _ _ l1 s1).
      * intros e s2 [l2 Hc2]. exists l2. by apply (counted_trans _ _ _ l1 s1).
    + intros e s1 [l1 Hc1]. by exists l1.
Qed.

Lemma snapshot_after_difference self items (rf : gset string) :
  snapshot_after self items rf =
  if configured self then rf ∖ list_to_set (map gd_target_name items) else rf.
Proof.
  unfold snapshot_after. revert rf.
  induction items as [|g items IH]; intros rf; simpl.
  - destruct (configured self); [|done]. set_solver.
  - rewrite IH. unfold folder_exists_on_remote.
    destruct (configured self); simpl; [|done].
    case_decide; simpl; set_solver.
Qed.

Lemma orphans_elem_of (remaining : gset string) name :
  name ∈ orphans remaining ↔ name ∈ remaining.
Proof. unfold orphans. by rewrite merge_sort_Permutation, elem_of_elements. Qed.

(** C3. When the loop has decided every item, the snapshot holds exactly
    the entries no item was matched to (every target of the catalog has been
    taken out of it); if that set is empty the run goes on, otherwise the run
    stops with the orphan error, which lists every remaining entry, in
    sorted order.  A run that was stopped inside the loop does not reach the
    check. *)
Theorem orphans_abort_the_run (env : Env) (self : Self) (max_transfers : option Z)
    (items : list game_data) (snapshot : gset string) (s : State) :
  let remaining :=
    if configured self
    then snapshot ∖ list_to_set (map gd_target_name items) else snapshot in
  match process_games env self max_transfers items (mkLocals 0 false snapshot) s with
  | Ok l s1 =>
      remote_folders l = remaining ∧
      reconcile env self max_transfers items snapshot s =
        if decide (remaining = ∅) then Ok l s1
        else Raise (OrphanedFolders (orphans remaining))
               (mkState (fs s1) (remote s1) (tick s1)
                        (events s1 ++ [Says (MsgOrphans (orphans remaining))])
                        (processed_games_metadata s1))
  | Raise e s1 => reconcile env self max_transfers items snapshot s = Raise e s1
  end ∧
  (∀ name, name ∈ orphans remaining ↔ name ∈ remaining) ∧
  Sorted String.le (orphans remaining).
Proof.
  intros remaining. split; [|split].
  - pose proof (process_games_counted env self max_transfers items
                  (mkLocals 0 false snapshot) s) as Hloop.
    unfold wp in Hloop. unfold reconcile, bind.
    destruct (process_games env self max_transfers items (mkLocals 0 false snapshot) s)
      as [l s1|e s1]; [|done].
    destruct Hloop as [Hrf _]. rewrite snapshot_after_difference in Hrf. simpl in Hrf.
    fold remaining in Hrf. split; [done|].
    unfold check_orphans. rewrite Hrf. by case_decide.
  - intros name. apply orphans_elem_of.
  - apply (Sorted_merge_sort _).
Qed.

(** The example of the specification, run through the whole function: the
    mirror holds the folders [A] and [B] and the only requested game maps to
    the target [A]. *)
Example orphan_B_is_reported :
  ∃ s', download_and_process_games (Samples.breaks_at 99) Samples.mirror
          ["https://downloads.scummvm.org/frs/extras/A.zip"] None
          (mkState ∅ {[ "A" := Whole; "B" := Whole ]} 0 [] [])
        = Raise (OrphanedFolders ["B"]) s' ∧
        last (events s') = Some (Says (MsgOrphans ["B"])).
Proof. eexists. split; vm_compute; reflexivity. Qed.

Lemma orphans_abort_the_run_witness :
  "B" ∈ orphans (({[ "A"; "B" ]} : gset string)
                   ∖ list_to_set (map gd_target_name [mkGame None "A" None])).
Proof.
  apply (proj1 (proj2 (orphans_abort_the_run (Samples.breaks_at 99) Samples.mirror None
                         [mkGame None "A" None] {[ "A"; "B" ]}
                         (mkState ∅ {[ "A" := Whole; "B" := Whole ]} 0 [] [])))).
  apply (bool_decide_unpack _). vm_compute. exact I.
Defined.

(** ** The transfer budget *)






(** Budget one, two zip demos, everything works: one upload, and the second
    demo is neither transferred nor listed, its local files are removed. *)
Example budget_one_two_demos :
  let s' := state_of (download_and_process_games (Samples.serves []) Samples.two_demos
                        [Samples.url_a; Samples.url_b] (Some 1%Z)
                        (mkState {[ "b.zip.downloading" := File (Bytes "PK");
                                    "b.zip" := File (ZipArchive Samples.foo_archive) ]}
                                 ∅ 0 [] [])) in
  uploads s' = 1 ∧ copies s' = 1 ∧ fetches s' = 1 ∧
  remote s' = {[ "a" := Whole ]} ∧
  processed_games_metadata s' = [Samples.record_a] ∧
  fs s' !! "b.zip" = None ∧ fs s' !! "b.zip.downloading" = None ∧ fs s' !! "b" = None.
Proof. vm_compute. repeat split; reflexivity. Qed.


(** What the loop does with the [None] that [download_file] returns for a
    zip item: it hands it to [extract_zip], and the run stops with the
    [TypeError] of [Path(None)]. *)
Example failed_zip_download_stops_run :
  ∃ s', download_and_process_games (Samples.breaks_at 99) Samples.two_demos
          [Samples.url_a; Samples.url_b] None Samples.fresh
        = Raise TypeError s' ∧
        fetches s' = 1 ∧ processed_games_metadata s' = [].
Proof. eexists. split; [vm_compute; reflexivity|]. vm_compute. by split. Qed.

(** * Further properties of the script *)

(** ** The catalog: updating, idempotent overrides, unique keys *)

Lemma find_existing_first v i games_metadata j m :
  Catalog.find_existing v i games_metadata = Some (j, m) →
  ∃ k, j = i + k ∧ games_metadata !! k = Some m ∧
       Catalog.get m "relative_path" = v ∧
       ∀ k' m', k' < k → games_metadata !! k' = Some m' →
                Catalog.get m' "relative_path" ≠ v.
Proof.
  revert i. induction games_metadata as [|m0 rest IH]; intros i; simpl; [done|].
  case_decide as Hm.
  - intros [= <- <-]. exists 0. split; [lia|]. split; [done|]. split; [done|].
    intros k' m' Hk. lia.
  - intros Hfind. destruct (IH _ Hfind) as (k & -> & Hk & Hget & Hfirst).
    exists (S k). split; [lia|]. split; [done|]. split; [done|].
    intros [|k'] m' Hlt; simpl; [by intros [= <-]|].
    intros Hk'. apply (Hfirst k'); [lia|done].
Qed.

Lemma find_existing_None v i games_metadata :
  Catalog.find_existing v i games_metadata = None ↔
  ∀ m, m ∈ games_metadata → Catalog.get m "relative_path" ≠ v.
Proof.
  revert i. induction games_metadata as [|m0 rest IH]; intros i; simpl.
  - split; [|done]. intros _ m Hm. by apply elem_of_nil in Hm.
  - case_decide as Hm.
    + split; [done|]. intros Hall. destruct (Hall m0); [left|done].
    + rewrite IH. split.
      * intros Hall m [->|Hin]%elem_of_cons; [done|by apply Hall].
      * intros Hall m Hin. apply Hall. by right.
Qed.

Lemma find_existing_intro v games_metadata k m :
  games_metadata !! k = Some m →
  Catalog.get m "relative_path" = v →
  (∀ k' m', k' < k → games_metadata !! k' = Some m' →
            Catalog.get m' "relative_path" ≠ v) →
  ∀ i, Catalog.find_existing v i games_metadata = Some (i + k, m).
Proof.
  revert k. induction games_metadata as [|m0 rest IH]; intros k Hk Hget Hfirst i;
    [done|]. simpl. destruct k as [|k]; simpl in *.
  - injection Hk as ->. rewrite decide_True by done. f_equal. f_equal. lia.
  - rewrite decide_False by (apply (Hfirst 0); [lia|done]).
    rewrite (IH k Hk Hget); [f_equal; f_equal; lia|].
    intros k' m' Hlt Hk'. apply (Hfirst (S k')); [lia|done].
Qed.

Lemma existing_Some relative_path games_metadata i m :
  Catalog.existing relative_path games_metadata = Some (i, m) →
  games_metadata !! i = Some m ∧
  Catalog.get m "relative_path" = Catalog.of_opt relative_path ∧
  Catalog.dict_truthy m = true ∧
  ∀ k' m', k' < i → games_metadata !! k' = Some m' →
           Catalog.get m' "relative_path" ≠ Catalog.of_opt relative_path.
Proof.
  unfold Catalog.existing.
  destruct (Catalog.find_existing _ 0 games_metadata) as [[j m0]|] eqn:Hfind; [|done].
  destruct (Catalog.dict_truthy m0) eqn:Htruthy; [|done]. intros [= <- <-].
  destruct (find_existing_first _ _ _ _ _ Hfind) as (k & -> & ? & ? & ?). by simpl.
Qed.

Lemma apply_overrides_lookup overrides (m : Catalog.record) key :
  (∀ o, overrides = Some o → o !! key = None) →
  Catalog.apply_overrides overrides m !! key = m !! key.
Proof.
  intros Hkey. unfold Catalog.apply_overrides. destruct overrides as [o|]; [|done].
  destruct (Catalog.dict_truthy o); [|done]. rewrite lookup_union_r; [done|]. by apply Hkey.
Qed.

(** X1. When a non-empty record with the same [relative_path] exists, the
    call changes that record in place: the list keeps its length and its
    other records, the arguments [game_id], [description], [download_url],
    [languages] and [platform] are not looked at, only the override fields
    are written; without overrides the catalog is returned as it was. *)
Theorem update_writes_overrides_only
    (games_metadata : list Catalog.record)
    (game_id relative_path description download_url : option string)
    (languages : option (list string)) (platform : option string)
    (metadata_overrides : option Catalog.record) (i : nat) (m : Catalog.record) :
  Catalog.existing relative_path games_metadata = Some (i, m) →
  let out := Catalog.add_or_update_game_metadata games_metadata game_id relative_path
               description download_url languages platform metadata_overrides in
  out = Catalog.add_or_update_game_metadata games_metadata None relative_path
          None None None None metadata_overrides ∧
  length out.1 = length games_metadata ∧
  out.1 !! i = Some out.2 ∧
  (∀ j, j ≠ i → out.1 !! j = games_metadata !! j) ∧
  (∀ key, (∀ o, metadata_overrides = Some o → o !! key = None) →
          out.2 !! key = m !! key) ∧
  (∀ o key v, metadata_overrides = Some o → o !! key = Some v →
              out.2 !! key = Some v) ∧
  (metadata_overrides = None → out = (games_metadata, m)).
Proof.
  intros Hex out. subst out. unfold Catalog.add_or_update_game_metadata. rewrite Hex.
  destruct (existing_Some _ _ _ _ Hex) as (Hi & _ & _ & _). simpl.
  split; [done|]. split; [apply length_insert|].
  split; [apply list_lookup_insert_eq; by eapply lookup_lt_Some|].
  split; [intros j Hj; by apply list_lookup_insert_ne|].
  split; [intros key Hkey; by apply apply_overrides_lookup|]. split.
  - intros o key v -> Hv. unfold Catalog.apply_overrides.
    assert (Htruthy : Catalog.dict_truthy o = true).
    { apply bool_decide_eq_true. intros ->. by rewrite lookup_empty in Hv. }
    rewrite Htruthy. by apply lookup_union_Some_l.
  - intros ->. simpl. by rewrite list_insert_id.
Qed.

Lemma update_writes_overrides_only_witness :
  Catalog.add_or_update_game_metadata [Samples.record_a; Samples.record_b]
    (Some "other:id") (Some "b") (Some "New text") (Some "https://example.org/b.zip")
    (Some ["de"]) (Some "DOS") None
  = ([Samples.record_a; Samples.record_b], Samples.record_b).
Proof.
  refine (proj2 (proj2 (proj2 (proj2 (proj2 (proj2
    (update_writes_overrides_only [Samples.record_a; Samples.record_b]
       (Some "other:id") (Some "b") (Some "New text") (Some "https://example.org/b.zip")
       (Some ["de"]) (Some "DOS") None 1 Samples.record_b _)))))) eq_refl).
  vm_compute. reflexivity.
Defined.

Lemma apply_overrides_idemp overrides (m : Catalog.record) :
  Catalog.apply_overrides overrides (Catalog.apply_overrides overrides m)
  = Catalog.apply_overrides overrides m.
Proof.
  unfold Catalog.apply_overrides. destruct overrides as [o|]; [|done].
  destruct (Catalog.dict_truthy o); [|done].
  by rewrite (assoc_L (∪)), (idemp_L (∪)).
Qed.

Lemma fresh_record_relative_path game_id relative_path description download_url
    languages platform :
  Catalog.fresh_record game_id relative_path description download_url languages platform
    !! "relative_path" = Some (Catalog.of_opt relative_path).
Proof.
  unfold Catalog.fresh_record, Catalog.store_languages.
  assert (Hbase : (<["description" := Catalog.of_opt description]>
                    (<["relative_path" := Catalog.of_opt relative_path]>
                      (<["id" := Catalog.of_opt game_id]> (∅ : Catalog.record))))
                  !! "relative_path" = Some (Catalog.of_opt relative_path)).
  { rewrite lookup_insert_ne by done. apply lookup_insert_eq. }
  destruct (Catalog.opt_truthy platform), (Catalog.opt_truthy download_url),
    languages as [[|x l]|]; try destruct (decide ("en" ∈ x :: l));
    try destruct (Catalog.remove_first "en" (x :: l));
    by rewrite ?lookup_insert_ne by done.
Qed.

(** The record a call leaves in the catalog for the key [relative_path],
    and where: the call is the one of [add_or_update_game_metadata]. *)
Lemma add_or_update_keeps_key
    (games_metadata : list Catalog.record)
    (game_id : option string) (relative_path : string)
    (description download_url : option string)
    (languages : option (list string)) (platform : option string)
    (metadata_overrides : option Catalog.record) :
  (∀ o, metadata_overrides = Some o → o !! "relative_path" = None) →
  let out := Catalog.add_or_update_game_metadata games_metadata game_id
               (Some relative_path) description download_url languages platform
               metadata_overrides in
  ∃ i, out.1 !! i = Some out.2 ∧
       Catalog.existing (Some relative_path) out.1 = Some (i, out.2) ∧
       map (λ m, Catalog.get m "relative_path") out.1 =
         match Catalog.existing (Some relative_path) games_metadata with
         | Some _ => map (λ m, Catalog.get m "relative_path") games_metadata
         | None => map (λ m, Catalog.get m "relative_path") games_metadata
                     ++ [Catalog.PStr relative_path]
         end ∧
       (Catalog.existing (Some relative_path) games_metadata = None →
        Catalog.PStr relative_path ∉ map (λ m, Catalog.get m "relative_path") games_metadata).
Proof.
  intros Hkey out. subst out. unfold Catalog.add_or_update_game_metadata.
  assert (Htruthy : ∀ m : Catalog.record,
            Catalog.get m "relative_path" = Catalog.PStr relative_path →
            Catalog.dict_truthy m = true).
  { intros m Hm. apply bool_decide_eq_true. intros ->. unfold Catalog.get in Hm.
    by rewrite lookup_empty in Hm. }
  destruct (Catalog.existing (Some relative_path) games_metadata) as [[i m]|] eqn:Hex.
  - destruct (existing_Some _ _ _ _ Hex) as (Hi & Hget & _ & Hfirst). simpl in *.
    set (r := Catalog.apply_overrides metadata_overrides m).
    assert (Hr : Catalog.get r "relative_path" = Catalog.PStr relative_path).
    { unfold Catalog.get, r. rewrite apply_overrides_lookup by done. exact Hget. }
    assert (Hlen : i < length games_metadata) by (by eapply lookup_lt_Some).
    exists i. split; [by apply list_lookup_insert_eq|]. split; [|split; [|done]].
    + unfold Catalog.existing.
      rewrite (find_existing_intro _ _ i r); simpl.
      * by rewrite (Htruthy r Hr).
      * by apply list_lookup_insert_eq.
      * done.
      * intros k' m' Hlt Hk'. rewrite list_lookup_insert_ne in Hk' by lia.
        by apply (Hfirst k').
    + apply list_eq. intros j. rewrite !list_lookup_fmap.
      destruct (decide (j = i)) as [->|Hj].
      * rewrite list_lookup_insert_eq by done. rewrite Hi. simpl. by rewrite Hr, Hget.
      * by rewrite list_lookup_insert_ne.
  - assert (Hnone : ∀ m, m ∈ games_metadata →
              Catalog.get m "relative_path" ≠ Catalog.PStr relative_path).
    { unfold Catalog.existing in Hex.
      destruct (Catalog.find_existing _ 0 games_metadata) as [[j m0]|] eqn:Hfind.
      - destruct (find_existing_first _ _ _ _ _ Hfind) as (k & _ & _ & Hget & _).
        simpl in Hget. by rewrite (Htruthy m0 Hget) in Hex.
      - by apply (find_existing_None _ 0). }
    simpl.
    set (r := Catalog.apply_overrides metadata_overrides
                (Catalog.fresh_record game_id (Some relative_path) description
                   download_url languages platform)).
    assert (Hr : Catalog.get r "relative_path" = Catalog.PStr relative_path).
    { unfold Catalog.get, r. rewrite apply_overrides_lookup by done.
      by rewrite fresh_record_relative_path. }
    exists (length games_metadata).
    split; [by rewrite lookup_app_r, Nat.sub_diag by lia|]. split; [|split].
    + unfold Catalog.existing.
      rewrite (find_existing_intro _ _ (length games_metadata) r); simpl.
      * by rewrite (Htruthy r Hr).
      * by rewrite lookup_app_r, Nat.sub_diag by lia.
      * done.
      * intros k' m' Hlt Hk'. rewrite lookup_app_l in Hk' by done.
        apply Hnone. by eapply list_elem_of_lookup_2.
    + by rewrite map_app; simpl; rewrite Hr.
    + intros _ [m [Hm Hin]]%list_elem_of_fmap. by apply (Hnone m).
Qed.

(** X2. Override merge is idempotent: a second call with the same key and
    the same overrides (which do not rewrite [relative_path]) finds the
    record the first call left and changes nothing, whatever the other
    arguments are. *)
Theorem override_merge_idempotent
    (games_metadata : list Catalog.record)
    (game_id game_id' : option string) (relative_path : string)
    (description description' download_url download_url' : option string)
    (languages languages' : option (list string)) (platform platform' : option string)
    (metadata_overrides : option Catalog.record) :
  (∀ o, metadata_overrides = Some o → o !! "relative_path" = None) →
  let once := Catalog.add_or_update_game_metadata games_metadata game_id
                (Some relative_path) description download_url languages platform
                metadata_overrides in
  Catalog.add_or_update_game_metadata once.1 game_id' (Some relative_path)
    description' download_url' languages' platform' metadata_overrides
  = once.
Proof.
  intros Hkey once.
  destruct (add_or_update_keeps_key games_metadata game_id relative_path description
              download_url languages platform metadata_overrides Hkey)
    as (i & Hi & Hex & _). fold once in Hi, Hex.
  unfold Catalog.add_or_update_game_metadata at 1. rewrite Hex.
  assert (Hsame : Catalog.apply_overrides metadata_overrides once.2 = once.2).
  { subst once. unfold Catalog.add_or_update_game_metadata.
    destruct (Catalog.existing _ games_metadata) as [[? ?]|]; simpl;
      apply apply_overrides_idemp. }
  rewrite Hsame. rewrite list_insert_id by done. by destruct once.
Qed.

Lemma override_merge_idempotent_witness :
  let o : Catalog.record := {[ "description" := Catalog.PStr "Fan translation" ]} in
  let once := Catalog.add_or_update_game_metadata [Samples.record_a] (Some "scumm:b")
                (Some "b") None None None None (Some o) in
  Catalog.add_or_update_game_metadata once.1 (Some "scumm:b") (Some "b")
    (Some "ignored") None None None (Some o) = once.
Proof.
  intros o once.
  apply (override_merge_idempotent [Samples.record_a] (Some "scumm:b") (Some "scumm:b")
           "b" None (Some "ignored") None None None None None None (Some o)).
  intros o' [= <-]. reflexivity.
Defined.

(** X3. The catalog keeps its join key unique: when the [relative_path]
    values of the records are pairwise different, they still are after a
    call (for a string key and overrides that do not rewrite the key), and
    the call adds at most one record. *)
Theorem relative_paths_stay_unique
    (games_metadata : list Catalog.record)
    (game_id : option string) (relative_path : string)
    (description download_url : option string)
    (languages : option (list string)) (platform : option string)
    (metadata_overrides : option Catalog.record) :
  NoDup (map (λ m, Catalog.get m "relative_path") games_metadata) →
  (∀ o, metadata_overrides = Some o → o !! "relative_path" = None) →
  let out := Catalog.add_or_update_game_metadata games_metadata game_id
               (Some relative_path) description download_url languages platform
               metadata_overrides in
  NoDup (map (λ m, Catalog.get m "relative_path") out.1) ∧
  Catalog.PStr relative_path ∈ map (λ m, Catalog.get m "relative_path") out.1 ∧
  length games_metadata ≤ length out.1 ≤ S (length games_metadata).
Proof.
  intros Hnd Hkey out.
  destruct (add_or_update_keeps_key games_metadata game_id relative_path description
              download_url languages platform metadata_overrides Hkey)
    as (i & Hi & Hex & Hmap & Hfresh). fold out in Hi, Hex, Hmap.
  split; [|split].
  - rewrite Hmap. destruct (Catalog.existing _ games_metadata); [done|].
    apply NoDup_app. split; [done|]. split; [|apply NoDup_singleton].
    intros v Hv ->%list_elem_of_singleton. by apply Hfresh.
  - apply list_elem_of_fmap. exists out.2. split.
    + destruct (existing_Some _ _ _ _ Hex) as (_ & Hget & _). by rewrite Hget.
    + by eapply list_elem_of_lookup_2.
  - subst out. unfold Catalog.add_or_update_game_metadata.
    destruct (Catalog.existing _ games_metadata) as [[? ?]|]; simpl.
    + rewrite length_insert. lia.
    + rewrite length_app. simpl. lia.
Qed.

Lemma relative_paths_stay_unique_witness :
  NoDup (map (λ m, Catalog.get m "relative_path")
           (Catalog.add_or_update_game_metadata [Samples.record_a] (Some "scumm:b")
              (Some "b") None None None None None).1).
Proof.
  refine (proj1 (relative_paths_stay_unique [Samples.record_a] (Some "scumm:b") "b"
                   None None None None None _ _)).
  - apply (bool_decide_unpack _). vm_compute. exact I.
  - intros o Ho. discriminate Ho.
Defined.

(** ** Languages read from a sheet row *)

Lemma truthy_ne (s : string) : PyStr.truthy s = true ↔ s ≠ "".
Proof. destruct s; simpl; split; done. Qed.

Lemma extract_step_elem_of (data : gmap string string) cols acc x :
  x ∈ foldl (λ languages col,
               let lang_value := PyStr.strip (default "" (data !! col)) in
               if PyStr.truthy lang_value && bool_decide (lang_value ∉ languages)
               then languages ++ [lang_value] else languages) acc cols
  ↔ x ∈ acc ∨ (x ≠ "" ∧ ∃ col, col ∈ cols ∧ PyStr.strip (default "" (data !! col)) = x).
Proof.
  revert acc. induction cols as [|c cols IH]; intros acc; simpl.
  - split; [by left|]. intros [?|(_ & col & Hcol & _)]; [done|]. by apply elem_of_nil in Hcol.
  - rewrite IH. clear IH. set (v := PyStr.strip (default "" (data !! c))).
    destruct (PyStr.truthy v) eqn:Hv; simpl.
    + apply truthy_ne in Hv. case_bool_decide as Hin.
      * rewrite elem_of_app, list_elem_of_singleton. split.
        -- intros [[?| ->]|(Hx & col & Hcol & Hval)].
           ++ by left.
           ++ right. split; [done|]. exists c. split; [left|done].
           ++ right. split; [done|]. exists col. split; [by right|done].
        -- intros [?|(Hx & col & [->|Hcol]%elem_of_cons & Hval)].
           ++ by left; left.
           ++ left; right. by rewrite <- Hval.
           ++ right. split; [done|]. by exists col.
      * split.
        -- intros [?|(Hx & col & Hcol & Hval)]; [by left|].
           right. split; [done|]. exists col. split; [by right|done].
        -- intros [?|(Hx & col & [->|Hcol]%elem_of_cons & Hval)].
           ++ by left.
           ++ left. by rewrite <- Hval.
           ++ right. split; [done|]. by exists col.
    + assert (Hempty : v = "") by (by destruct v).
      split.
      * intros [?|(Hx & col & Hcol & Hval)]; [by left|].
        right. split; [done|]. exists col. split; [by right|done].
      * intros [?|(Hx & col & [->|Hcol]%elem_of_cons & Hval)].
        -- by left.
        -- fold v in Hval. congruence.
        -- right. split; [done|]. by exists col.
Qed.

Lemma extract_step_length (data : gmap string string) cols acc :
  length (foldl (λ languages col,
               let lang_value := PyStr.strip (default "" (data !! col)) in
               if PyStr.truthy lang_value && bool_decide (lang_value ∉ languages)
               then languages ++ [lang_value] else languages) acc cols)
  ≤ length acc + length cols.
Proof.
  revert acc. induction cols as [|c cols IH]; intros acc; simpl; [lia|].
  etrans; [apply IH|].
  destruct (_ && _); rewrite ?length_app; simpl; lia.
Qed.

(** X4. [_extract_languages] returns exactly the non-empty stripped values
    of the five language columns, each once: no value is repeated, none is
    empty, there are at most five, and a value is in the result exactly
    when some language column holds it (up to surrounding white space). *)
Theorem extract_languages_exact (data : gmap string string) :
  NoDup (Catalog._extract_languages data) ∧
  length (Catalog._extract_languages data) ≤ 5 ∧
  ∀ x, x ∈ Catalog._extract_languages data ↔
       x ≠ "" ∧ ∃ col, col ∈ Catalog.lang_columns ∧
                       PyStr.strip (default "" (data !! col)) = x.
Proof.
  split; [apply _extract_languages_NoDup|]. split.
  - unfold Catalog._extract_languages.
    etrans; [apply extract_step_length|]. simpl. lia.
  - intros x. unfold Catalog._extract_languages.
    rewrite extract_step_elem_of. split.
    + intros [Hnil|?]; [by apply elem_of_nil in Hnil|done].
    + by right.
Qed.

Lemma remove_first_NoDup x (l : list string) :
  NoDup l →
  NoDup (Catalog.remove_first x l) ∧
  ∀ y, y ∈ Catalog.remove_first x l ↔ y ∈ l ∧ y ≠ x.
Proof.
  induction 1 as [|a l Hnotin Hnd IH]; simpl.
  - split; [constructor|]. intros y. split; [by intros ?%elem_of_nil|by intros [?%elem_of_nil _]].
  - destruct IH as [IHnd IHin]. case_decide as Ha.
    + subst a. split; [done|]. intros y. rewrite elem_of_cons. split.
      * intros Hy. split; [by right|]. by intros ->.
      * by intros [[->|?] ?].
    + split.
      * constructor; [|done]. rewrite IHin. by intros [? _].
      * intros y. rewrite !elem_of_cons, IHin. split.
        -- intros [->|[? ?]]; [by split; [left|]|]. by split; [right|].
        -- intros [[->|?] ?]; [by left|by right].
Qed.

(** X5. A record created from a sheet row never lists plain ["en"]: when
    the language list is the one [_extract_languages] returns (as in the
    three loaders) and no record with the key exists yet, the stored
    [languages] value is the list of extracted languages other than ["en"],
    without repetition, and the field is absent exactly when nothing but
    ["en"] was extracted. *)
Theorem sheet_languages_never_hold_en
    (games_metadata : list Catalog.record) (data : gmap string string)
    (game_id relative_path description download_url platform : option string) :
  Catalog.existing relative_path games_metadata = None →
  let languages := Catalog._extract_languages data in
  let out := Catalog.add_or_update_game_metadata games_metadata game_id relative_path
               description download_url (Some languages) platform None in
  match out.2 !! "languages" with
  | Some v => ∃ stored, v = Catalog.PList stored ∧ stored ≠ [] ∧ ("en" ∉ stored) ∧
                        NoDup stored ∧ (∀ x, x ∈ stored ↔ x ∈ languages ∧ x ≠ "en")
  | None => ∀ x, x ∈ languages → x = "en"
  end.
Proof.
  intros Hnew languages out. subst out.
  unfold Catalog.add_or_update_game_metadata. rewrite Hnew. simpl.
  rewrite fresh_record_languages.
  destruct (remove_first_NoDup "en" languages (_extract_languages_NoDup data))
    as [Hnd Hin].
  destruct (Catalog.remove_first "en" languages) as [|a stored] eqn:E.
  - intros x Hx. destruct (decide (x = "en")) as [|Hne]; [done|].
    assert (Hx' : x ∈ []) by (apply Hin; done). by apply elem_of_nil in Hx'.
  - exists (a :: stored). split; [done|]. split; [done|]. split; [|done].
    rewrite Hin. by intros [_ ?].
Qed.

Lemma sheet_languages_never_hold_en_witness :
  let languages := Catalog._extract_languages {[ "lang" := "en"; "language1" := " de " ]} in
  match (Catalog.add_or_update_game_metadata [] (Some "scumm:monkey") (Some "monkey-demo")
           (Some "DOS Demo") None (Some languages) None None).2 !! "languages" with
  | Some v => ∃ stored, v = Catalog.PList stored ∧ stored ≠ [] ∧ ("en" ∉ stored) ∧
                        NoDup stored ∧ (∀ x, x ∈ stored ↔ x ∈ languages ∧ x ≠ "en")
  | None => ∀ x, x ∈ languages → x = "en"
  end.
Proof.
  apply (sheet_languages_never_hold_en [] {[ "lang" := "en"; "language1" := " de " ]}
           (Some "scumm:monkey") (Some "monkey-demo") (Some "DOS Demo") None None).
  reflexivity.
Defined.

(** ** What each step leaves alone *)

Import Frame.

Global Instance same_preorder p : PreOrder (same p).
Proof.
  split.
  - intros s. by destruct p.
  - intros s1 s2 s3. destruct p; simpl; [congruence| |congruence].
    intros [? ?] [? ?]. split; congruence.
Qed.

Section Preserves.
Context (R : State → State → Prop) `{!PreOrder R}.

Lemma preserves_ret {A} (a : A) : preserves R (ret a).
Proof. intros s. simpl. reflexivity. Qed.

Lemma preserves_raise {A} e : preserves R (@raise A e).
Proof. intros s. simpl. reflexivity. Qed.

Lemma preserves_bind {A B} (m : M A) (k : A → M B) :
  preserves R m → (∀ a, preserves R (k a)) → preserves R (bind m k).
Proof.
  intros Hm Hk s. unfold bind. specialize (Hm s).
  destruct (m s) as [a s'|e s']; simpl in *; [|done].
  etrans; [exact Hm|apply Hk].
Qed.

Lemma preserves_try_except {A} (m : M A) caught h :
  preserves R m → (∀ e, preserves R (h e)) → preserves R (try_except m caught h).
Proof.
  intros Hm Hh s. unfold try_except. specialize (Hm s).
  destruct (m s) as [a s'|e s']; simpl in *; [done|].
  destruct (caught e); [|done]. etrans; [exact Hm|apply Hh].
Qed.

Lemma preserves_if {A} (b : bool) (m1 m2 : M A) :
  preserves R m1 → preserves R m2 → preserves R (if b then m1 else m2).
Proof. by destruct b. Qed.

End Preserves.

Lemma preserves_weaken {A} (R R' : State → State → Prop) (m : M A) :
  (∀ s s', R s s' → R' s s') → preserves R m → preserves R' m.
Proof. intros HR Hm s. apply HR, Hm. Qed.

(** The primitives. *)
Lemma same_say p m : preserves (same p) (say m).
Proof. intros s. by destruct p. Qed.

Lemma same_log p e : preserves (same p) (log e).
Proof. intros s. by destruct p. Qed.

Lemma same_exists_ p name : preserves (same p) (exists_ name).
Proof. intros s. by destruct p. Qed.

Lemma same_is_dir p name : preserves (same p) (is_dir name).
Proof. intros s. by destruct p. Qed.

Lemma same_set_fs p f : p ≠ Local → preserves (same p) (set_fs f).
Proof. intros Hp s. by destruct p. Qed.

Lemma same_unlink p name : p ≠ Local → preserves (same p) (unlink name).
Proof.
  intros Hp [f ? ? ? ?]. unfold unlink. simpl.
  destruct (f !! name) as [[]|]; by destruct p.
Qed.

Lemma same_rmtree p name : p ≠ Local → preserves (same p) (rmtree name).
Proof.
  intros Hp [f ? ? ? ?]. unfold rmtree. simpl.
  destruct (f !! name) as [[]|]; by destruct p.
Qed.

Lemma same_rename p src dst : p ≠ Local → preserves (same p) (rename src dst).
Proof.
  intros Hp [f ? ? ? ?]. unfold rename. simpl.
  destruct (f !! src); [|by destruct p].
  destruct (f !! dst) as [[]|]; by destruct p.
Qed.

Lemma same_write_tree p extract_dir t : p ≠ Local → preserves (same p) (write_tree extract_dir t).
Proof. intros Hp s. by destruct p. Qed.

Lemma same_open_zip p zip_name : preserves (same p) (open_zip zip_name).
Proof.
  intros [f ? ? ? ?]. unfold open_zip. simpl.
  destruct (f !! zip_name) as [[[]|]|]; by destruct p.
Qed.

Lemma same_run p env cmd : p ≠ Mirror → preserves (same p) (run env cmd).
Proof.
  intros Hp [f r k ev pr]. unfold run. simpl.
  destruct (exec _ _ _ _) as [[rc out] r']. by destruct p.
Qed.

Create HintDb frame.

#[global] Hint Resolve preserves_ret preserves_raise same_say same_log same_exists_
  same_is_dir same_set_fs same_unlink same_rmtree same_rename same_write_tree
  same_open_zip same_run : frame.
#[global] Hint Extern 1 (_ ≠ _) => discriminate : frame.
#[global] Hint Extern 1 (PreOrder _) => apply _ : frame.

(** Breaks a goal [preserves R m] along the structure of [m]. *)
Ltac frame_step :=
  first
    [ solve [auto with frame]
    | apply preserves_bind; [apply _| |]
    | apply preserves_try_except; [apply _| |]
    | apply preserves_if
    | progress intros
    | match goal with
      | |- preserves _ (match ?x with _ => _ end) => destruct x
      end ].

Ltac frame_tac := repeat frame_step.

Lemma same_remove_path p name : p ≠ Local → preserves (same p) (remove_path name).
Proof. intros Hp. unfold remove_path. frame_tac. Qed.

Lemma same_unlink_if_exists p name : p ≠ Local → preserves (same p) (unlink_if_exists name).
Proof. intros Hp. unfold unlink_if_exists. frame_tac. Qed.

Lemma same_run_checked p env cmd : p ≠ Mirror → preserves (same p) (run_checked env cmd).
Proof. intros Hp. unfold run_checked. frame_tac. Qed.

Lemma same_urlretrieve p env url temp : p ≠ Local → preserves (same p) (urlretrieve env url temp).
Proof.
  intros Hp. unfold urlretrieve. apply preserves_bind; [apply _|frame_tac|]. intros _.
  destruct (net env url); [|frame_tac|].
  - intros [f ? ? ? ?]. simpl. destruct (f !! temp) as [[]|]; by destruct p.
  - intros [f ? ? ? ?]. simpl. destruct (f !! temp) as [[]|]; by destruct p.
Qed.

#[global] Hint Resolve same_remove_path same_unlink_if_exists same_run_checked
  same_urlretrieve : frame.

Lemma same_download_file p env url filename :
  p ≠ Local → preserves (same p) (download_file env url filename).
Proof. intros Hp. unfold download_file. frame_tac. Qed.

Lemma same_extract_members p extract_dir members :
  p ≠ Local → preserves (same p) (extract_members extract_dir members).
Proof.
  intros Hp. unfold extract_members. destruct (single_root_folder _); [|frame_tac].
  destruct (unwrap_members _ _ _) as [written stopped]. frame_tac.
Qed.

#[global] Hint Resolve same_download_file same_extract_members : frame.

Lemma same_extract_zip p zip_path : p ≠ Local → preserves (same p) (extract_zip zip_path).
Proof. intros Hp. unfold extract_zip. frame_tac. Qed.

Lemma same_verify_folders p env lines folders :
  p ≠ Mirror → preserves (same p) (verify_folders env lines folders).
Proof.
  intros Hp. revert folders.
  induction lines as [|line lines IH]; intros folders; simpl; frame_tac.
Qed.

#[global] Hint Resolve same_extract_zip same_verify_folders : frame.

Lemma same_get_remote_folders p env self :
  p ≠ Mirror → preserves (same p) (get_remote_folders env self).
Proof. intros Hp. unfold get_remote_folders. frame_tac. Qed.

Lemma same_upload_folder p env self folder_name :
  p ≠ Mirror → preserves (same p) (upload_folder env self folder_name).
Proof. intros Hp. unfold upload_folder. frame_tac. Qed.

#[global] Hint Resolve same_get_remote_folders same_upload_folder : frame.

(** X6. Downloading and extracting are local: whether they return or
    raise, [download_file] and [extract_zip] run no remote command, leave
    the mirror as it is and do not touch the list of processed records. *)
Theorem local_steps_leave_mirror (env : Env) (url filename : string)
    (zip_path : option string) (s : State) :
  let s1 := state_of (download_file env url filename s) in
  let s2 := state_of (extract_zip zip_path s) in
  (remote s1 = remote s ∧ tick s1 = tick s ∧
   processed_games_metadata s1 = processed_games_metadata s) ∧
  (remote s2 = remote s ∧ tick s2 = tick s ∧
   processed_games_metadata s2 = processed_games_metadata s).
Proof.
  intros s1 s2.
  pose proof (same_download_file Mirror env url filename ltac:(done) s) as [? ?].
  pose proof (same_download_file Processed env url filename ltac:(done) s).
  pose proof (same_extract_zip Mirror zip_path ltac:(done) s) as [? ?].
  pose proof (same_extract_zip Processed zip_path ltac:(done) s).
  done.
Qed.

(** X7. Talking to the mirror is remote only: whether they succeed, fail
    or raise, and whatever the remote commands do, [get_remote_folders] and
    [upload_folder] leave the download directory and the list of processed
    records as they are; in particular a failed upload does not lose the
    local folder. *)
Theorem remote_steps_leave_local (env : Env) (self : Self) (folder_name : string)
    (s : State) :
  let s1 := state_of (get_remote_folders env self s) in
  let s2 := state_of (upload_folder env self folder_name s) in
  (fs s1 = fs s ∧ processed_games_metadata s1 = processed_games_metadata s) ∧
  (fs s2 = fs s ∧ processed_games_metadata s2 = processed_games_metadata s).
Proof.
  intros s1 s2.
  pose proof (same_get_remote_folders Local env self ltac:(done) s).
  pose proof (same_get_remote_folders Processed env self ltac:(done) s).
  pose proof (same_upload_folder Local env self folder_name ltac:(done) s).
  pose proof (same_upload_folder Processed env self folder_name ltac:(done) s).
  done.
Qed.

(** *** The loop *)

Lemma same_upload_folder_unconfigured p env self folder_name :
  configured self = false → preserves (same p) (upload_folder env self folder_name).
Proof. intros Hc. unfold upload_folder. rewrite Hc. simpl. frame_tac. Qed.

Lemma same_get_remote_folders_unconfigured p env self :
  configured self = false → preserves (same p) (get_remote_folders env self).
Proof. intros Hc. unfold get_remote_folders. rewrite Hc. simpl. frame_tac. Qed.

Lemma same_clean_completed p has filename target_name :
  p ≠ Local → preserves (same p) (clean_completed has filename target_name).
Proof. intros Hp. unfold clean_completed. frame_tac. Qed.

Lemma same_add_processed p self target_name :
  p ≠ Processed → preserves (same p) (add_processed self target_name).
Proof.
  intros Hp. unfold add_processed.
  destruct (Catalog.find_existing _ _ _) as [[i m]|]; [|frame_tac].
  destruct (Catalog.dict_truthy m); [|frame_tac]. intros s. by destruct p.
Qed.

Lemma same_check_orphans p remote_folders : preserves (same p) (check_orphans remote_folders).
Proof. unfold check_orphans. frame_tac. Qed.

#[global] Hint Resolve same_clean_completed same_add_processed same_check_orphans : frame.

Lemma same_transfer_processed env self max_transfers url filename target_name l :
  preserves (same Processed) (transfer env self max_transfers url filename target_name l).
Proof. unfold transfer. frame_tac. Qed.

Lemma same_transfer_unconfigured env self max_transfers url filename target_name l :
  configured self = false →
  preserves (same Mirror) (transfer env self max_transfers url filename target_name l).
Proof.
  intros Hc. pose proof (same_upload_folder_unconfigured Mirror env self) as Hup.
  unfold transfer. frame_tac; apply Hup; done.
Qed.

Lemma same_process_game_unconfigured env self max_transfers g l :
  configured self = false →
  preserves (same Mirror) (process_game env self max_transfers g l).
Proof.
  intros Hc. pose proof (same_transfer_unconfigured env self max_transfers) as Htr.
  unfold process_game.
  destruct (resolve_source g) as [[has url] filename].
  destruct (folder_exists_on_remote _ _ _) as [ex rf].
  frame_tac; apply Htr; done.
Qed.

Lemma same_process_games_unconfigured env self max_transfers items l :
  configured self = false →
  preserves (same Mirror) (process_games env self max_transfers items l).
Proof.
  intros Hc. revert l. induction items as [|g items IH]; intros l; simpl; [frame_tac|].
  apply preserves_bind; [apply _| |intros l'; apply IH].
  by apply same_process_game_unconfigured.
Qed.

(** X8. Without an scp server or path the reconciliation never reaches
    for the mirror: whatever the game list, the budget and the local
    directory are, and whether the run ends normally or with an error,
    [download_and_process_games] runs no remote command and the mirror is
    left as it is. *)
Theorem unconfigured_run_stays_local (env : Env) (self : Self) (game_ids : list string)
    (max_transfers : option Z) (s : State) :
  configured self = false →
  let s' := state_of (download_and_process_games env self game_ids max_transfers s) in
  remote s' = remote s ∧ tick s' = tick s.
Proof.
  intros Hc s'. subst s'.
  pose proof (same_get_remote_folders_unconfigured Mirror env self Hc) as Hls.
  pose proof (same_process_games_unconfigured env self max_transfers) as Hloop.
  assert (H : preserves (same Mirror)
                (download_and_process_games env self game_ids max_transfers)).
  { unfold download_and_process_games, reconcile. frame_tac; try (by apply Hloop).
    all: intros s0; simpl; destruct (processed_games_metadata s0); done. }
  exact (H s).
Qed.

Lemma unconfigured_run_stays_local_witness :
  let self := mkSelf None (Some "/srv/games") ∅ ∅ [] in
  let s := mkState ∅ {[ "other" := Whole ]} 0 [] [] in
  let s' := state_of (download_and_process_games (Samples.serves []) self
                        [Samples.url_a] None s) in
  remote s' = remote s ∧ tick s' = tick s.
Proof.
  intros self s.
  apply (unconfigured_run_stays_local (Samples.serves []) self [Samples.url_a] None s).
  reflexivity.
Defined.

Lemma process_game_processed env self max_transfers g l s :
  let s' := state_of (process_game env self max_transfers g l s) in
  processed_games_metadata s' = processed_games_metadata s ∨
  ∃ m, processed_games_metadata s' = processed_games_metadata s ++ [m] ∧
       m ∈ games_metadata self ∧ m ≠ ∅ ∧
       Catalog.get m "relative_path" = Catalog.PStr (gd_target_name g).
Proof.
  pose proof (same_transfer_processed env self max_transfers) as Htr.
  unfold process_game.
  destruct (resolve_source g) as [[has url] filename].
  destruct (folder_exists_on_remote _ _ _) as [ex rf].
  match goal with
  | |- context [state_of (bind ?m ?k s)] =>
      assert (Hm : preserves (same Processed) m) by (frame_tac; apply Htr);
      specialize (Hm s);
      change (bind m k s) with (match m s with Ok a s' => k a s' | Raise e s' => Raise e s' end);
      destruct (m s) as [[l' should] s1|e s1]
  end; simpl in *; [|by left].
  destruct should; [|by left]. unfold bind, add_processed.
  destruct (Catalog.find_existing _ _ _) as [[i m]|] eqn:Hfind; [|by left].
  rewrite (find_existing_truthy _ _ _ _ _ Hfind). simpl. right. exists m.
  split; [simpl; by rewrite Hm|].
  destruct (find_existing_first _ _ _ _ _ Hfind) as (k & _ & Hk & Hget & _).
  split; [by eapply list_elem_of_lookup_2|]. split; [|done].
  intros ->. unfold Catalog.get in Hget. by rewrite lookup_empty in Hget.
Qed.

(** X9. The list written to [games.json] is made of catalog records of
    processed targets: whatever happens in the loop, it only appends to
    [processed_games_metadata], at most one record per item, and every
    record it appends is a non-empty record of [games_metadata] whose
    [relative_path] is the target name of one of the items. *)
Theorem processed_list_holds_catalog_records (env : Env) (self : Self)
    (max_transfers : option Z) (items : list game_data) (l : Locals) (s : State) :
  let s' := state_of (process_games env self max_transfers items l s) in
  ∃ added,
    processed_games_metadata s' = processed_games_metadata s ++ added ∧
    length added ≤ length items ∧
    Forall (λ m, m ∈ games_metadata self ∧ m ≠ ∅ ∧
                 ∃ g, g ∈ items ∧
                      Catalog.get m "relative_path" = Catalog.PStr (gd_target_name g))
           added.
Proof.
  revert l s. induction items as [|g items IH]; intros l s; simpl.
  - exists []. by rewrite app_nil_r.
  - unfold bind. pose proof (process_game_processed env self max_transfers g l s) as Hg.
    destruct (process_game env self max_transfers g l s) as [l1 s1|e s1]; simpl in Hg.
    + destruct (IH l1 s1) as (added & Hadd & Hlen & Hall).
      assert (Hall' : Forall (λ m, m ∈ games_metadata self ∧ m ≠ ∅ ∧
                 ∃ g0, g0 ∈ g :: items ∧
                   Catalog.get m "relative_path" = Catalog.PStr (gd_target_name g0)) added).
      { eapply Forall_impl; [exact Hall|]. intros m (? & ? & g0 & ? & ?).
        split; [done|]. split; [done|]. exists g0. split; [by right|done]. }
      destruct Hg as [Hg|(m & Hg & Hin & Hne & Hget)].
      * exists added. rewrite Hadd, Hg. split; [done|]. split; [lia|done].
      * exists (m :: added). rewrite Hadd, Hg, <- (assoc_L (++)). split; [done|].
        split; [simpl; lia|]. constructor; [|done].
        split; [done|]. split; [done|]. exists g. split; [left|done].
    + simpl. destruct Hg as [Hg|(m & Hg & Hin & Hne & Hget)].
      * exists []. rewrite app_nil_r. split; [done|]. split; [simpl; lia|constructor].
      * exists [m]. split; [done|]. split; [simpl; lia|]. constructor; [|constructor].
        split; [done|]. split; [done|]. exists g. split; [left|done].
Qed.

(** ** Archives that cannot be read *)

(** X10. An archive that cannot be opened changes nothing: when the target
    folder does not exist yet and the path holds no zip archive,
    [extract_zip] raises ([FileNotFoundError] for a missing path,
    [IsADirectoryError] for a directory, [BadZipFile] for other bytes)
    before anything is written or removed; and [extract_zip(None)], which
    is what the loop passes after a failed download, raises [TypeError]
    at once. *)
Theorem extract_zip_unreadable_archive (zip_name : string) (s : State) :
  fs s !! stem zip_name = None →
  (∀ members, fs s !! zip_name ≠ Some (File (ZipArchive members))) →
  extract_zip (Some zip_name) s =
    Raise (match fs s !! zip_name with
           | None => FileNotFoundError zip_name
           | Some (Dir _) => IsADirectoryError zip_name
           | Some (File _) => BadZipFile zip_name
           end) s ∧
  extract_zip None s = Raise TypeError s.
Proof.
  intros Hdir Hzip. split; [|done].
  cbv [extract_zip bind exists_ open_zip]. rewrite Hdir. simpl.
  destruct (fs s !! zip_name) as [[[b|members]|t]|] eqn:E; try done.
  by destruct (Hzip members).
Qed.

Lemma extract_zip_unreadable_archive_witness :
  let s := mkState {[ "a.zip" := File (Bytes "<html>not found</html>") ]} ∅ 0 [] [] in
  extract_zip (Some "a.zip") s = Raise (BadZipFile "a.zip") s.
Proof.
  intros s.
  refine (proj1 (extract_zip_unreadable_archive "a.zip" s _ _)).
  - reflexivity.
  - intros members H. vm_compute in H. discriminate H.
Defined.

(** ** The snapshot of the mirror *)

Lemma exec_TestD f name b (r : gmap string copy_state) :
  (exec f (TestD name) b r).2 = r ∧
  ((exec f (TestD name) b r).1.1 = 0%Z → f = NoFault ∧ is_Some (r !! name)) ∧
  (f = NoFault → is_Some (r !! name) → (exec f (TestD name) b r).1.1 = 0%Z).
Proof.
  destruct f; simpl; try done.
  case_decide as Hin; simpl; split; try done; split; try done.
Qed.

Lemma exec_Ls f b (r : gmap string copy_state) :
  (exec f Ls b r).2 = r ∧
  ((exec f Ls b r).1.1 = 0%Z → f = NoFault) ∧
  (f = NoFault → exec f Ls b r = (0%Z, sorted_names r, r)) ∧
  (f ≠ NoFault → exec f Ls b r = (255%Z, [], r)).
Proof. by destruct f. Qed.

Lemma verify_folders_run env lines (folders : gset string) s :
  ∃ folders' s',
    verify_folders env lines folders s = Ok folders' s' ∧
    remote s' = remote s ∧ tick s ≤ tick s' ∧
    folders ⊆ folders' ∧ folders' ⊆ folders ∪ dom (remote s) ∧
    ((∀ k, tick s ≤ k → plan env k = NoFault) →
     ∀ line, line ∈ lines → PyStr.strip line = line → line ≠ "" →
             line ∈ dom (remote s) → line ∈ folders').
Proof.
  revert folders s. induction lines as [|line lines IH]; intros folders s; simpl.
  - exists folders, s. split; [done|]. split; [done|]. split; [done|].
    split; [done|]. split; [set_solver|]. intros _ line Hin. by apply elem_of_nil in Hin.
  - destruct (PyStr.truthy (PyStr.strip line)) eqn:Htruthy.
    + unfold bind, run. simpl.
      pose proof (exec_TestD (plan env (tick s)) (PyStr.strip line) false (remote s))
        as (Hr & Hzero & Hfound).
      destruct (exec _ _ _ _) as [[rc out] r'] eqn:Hexec. simpl in *. subst r'.
      match goal with
      | |- context [verify_folders env lines ?fo ?st] =>
          destruct (IH fo st) as (folders' & s' & Hrun & Hrem & Htick & Hsub & Hsup & Hall)
      end.
      simpl in *. exists folders', s'. split; [done|]. split; [done|]. split; [lia|].
      split; [|split].
      * case_decide; set_solver.
      * case_decide as Hrc; [|set_solver].
        destruct (Hzero Hrc) as [_ Hsome]. apply elem_of_dom in Hsome. set_solver.
      * intros Hplan line' [->|Hin]%elem_of_cons Hstrip Hne Hdom.
        -- rewrite Hstrip in *. apply Hsub.
           rewrite decide_True; [set_solver|].
           apply Hfound; [apply Hplan; lia|by apply elem_of_dom].
        -- apply Hall; try done. intros k Hk. apply Hplan. lia.
    + destruct (IH folders s) as (folders' & s' & Hrun & Hrem & Htick & Hsub & Hsup & Hall).
      exists folders', s'. split; [done|]. split; [done|]. split; [done|].
      split; [done|]. split; [done|].
      intros Hplan line' [->|Hin]%elem_of_cons Hstrip Hne Hdom.
      * rewrite Hstrip in Htruthy. by destruct line.
      * by apply Hall.
Qed.



(** ** Branches of the loop *)

(** X12. A game that is already on the mirror is not transferred again:
    for an item that is not marked skip and whose target is in the
    snapshot, the iteration takes the target out of the snapshot, prints the
    notice, removes the local folder and archive of a first-party download,
    and appends the item's catalog record to the processed list (or prints
    the warning when the catalog has none); it runs no download and no
    remote command and leaves the counters alone.  (Assumed for the
    clean-up: no directory sits at the archive's path.) *)
Theorem already_remote_is_not_transferred (env : Env) (self : Self)
    (max_transfers : option Z) (g : game_data) (l : Locals) (s : State)
    (has : bool) (url filename : option string) :
  is_skipped self (gd_target_name g) = false →
  resolve_source g = (has, url, filename) →
  configured self = true →
  gd_target_name g ∈ remote_folders l →
  (∀ name t, filename = Some name → has = true → name ≠ gd_target_name g →
             fs s !! name ≠ Some (Dir t)) →
  let target_name := gd_target_name g in
  let found := Catalog.find_existing (Catalog.PStr target_name) 0 (games_metadata self) in
  process_game env self max_transfers g l s =
  Ok (mkLocals (transfer_count l) (any_uploads_occurred l)
               (remote_folders l ∖ {[target_name]}))
     (mkState
        (match filename with
         | Some name =>
             if has && PyStr.truthy name
             then delete name (delete target_name (fs s)) else fs s
         | None => fs s
         end)
        (remote s) (tick s)
        (events s ++ Says (MsgAlreadyRemote target_name) ::
           match found with
           | Some _ => []
           | None => [Says (MsgNoMetadata target_name)]
           end)
        (processed_games_metadata s ++
           match found with
           | Some (_, game_metadata) => [game_metadata]
           | None => []
           end)).
Proof.
  intros Hskip Hres Hconf Hin Hnodir target_name found. subst target_name found.
  unfold process_game. rewrite Hres.
  unfold folder_exists_on_remote. rewrite Hconf. simpl.
  rewrite decide_True by done. rewrite Hskip. simpl.
  destruct s as [f r k ev pr]. simpl in *.
  assert (Hadd : ∀ s0,
    add_processed self (gd_target_name g) s0 =
    Ok () (mkState (fs s0) (remote s0) (tick s0)
             (events s0 ++ match Catalog.find_existing (Catalog.PStr (gd_target_name g)) 0
                                   (games_metadata self) with
                           | Some _ => []
                           | None => [Says (MsgNoMetadata (gd_target_name g))]
                           end)
             (processed_games_metadata s0 ++
                match Catalog.find_existing (Catalog.PStr (gd_target_name g)) 0
                        (games_metadata self) with
                | Some (_, game_metadata) => [game_metadata]
                | None => []
                end))).
  { intros s0. unfold add_processed.
    destruct (Catalog.find_existing _ _ _) as [[i m]|] eqn:Hfind.
    - rewrite (find_existing_truthy _ _ _ _ _ Hfind). by rewrite app_nil_r.
    - unfold say. by rewrite app_nil_r. }
  unfold clean_completed.
  assert (Hdone : ∀ f',
    (bind (bind (say (MsgAlreadyRemote (gd_target_name g)))
             (λ _, bind (ret ()) (λ _, ret (mkLocals (transfer_count l)
                      (any_uploads_occurred l) (remote_folders l ∖ {[gd_target_name g]}), true))))
       (λ out, let '(l0, should) := out in
               bind (if should then add_processed self (gd_target_name g) else ret ())
                    (λ _, ret l0))) (mkState f' r k ev pr) =
    Ok (mkLocals (transfer_count l) (any_uploads_occurred l)
          (remote_folders l ∖ {[gd_target_name g]}))
       (mkState f' r k
          (ev ++ Says (MsgAlreadyRemote (gd_target_name g)) ::
             match Catalog.find_existing (Catalog.PStr (gd_target_name g)) 0
                     (games_metadata self) with
             | Some _ => []
             | None => [Says (MsgNoMetadata (gd_target_name g))]
             end)
          (pr ++ match Catalog.find_existing (Catalog.PStr (gd_target_name g)) 0
                         (games_metadata self) with
                 | Some (_, game_metadata) => [game_metadata]
                 | None => []
                 end))).
  { intros f'. cbv [bind say ret]. rewrite Hadd. simpl.
    by rewrite <- (assoc_L (++)). }
  destruct filename as [name|]; [|apply Hdone].
  destruct (has && PyStr.truthy name) eqn:Hclean; [|apply Hdone].
  apply andb_true_iff in Hclean as [-> _].
  cbv [bind say ret]. rewrite remove_path_run. simpl.
  rewrite unlink_if_exists_run; simpl.
  - rewrite Hadd. simpl. by rewrite <- (assoc_L (++)).
  - intros t. destruct (decide (name = gd_target_name g)) as [->|Hne].
    + by rewrite lookup_delete_eq.
    + rewrite lookup_delete_ne by done. by apply Hnodir.
Qed.

Lemma already_remote_is_not_transferred_witness :
  let self := Samples.two_demos in
  let g := mkGame (Some (Samples.url_a, "a.zip")) "a" None in
  let s := mkState {[ "a" := Dir [(["a.txt"], TFile "A")] ]} {[ "a" := Whole ]} 0 [] [] in
  process_game (Samples.serves []) self (Some 1%Z) g (mkLocals 0 false {[ "a" ]}) s
  = Ok (mkLocals 0 false ({[ "a" ]} ∖ {[ "a" ]}))
       (mkState (delete "a.zip" (delete "a" (fs s))) {[ "a" := Whole ]} 0
          [Says (MsgAlreadyRemote "a")] [Samples.record_a]).
Proof.
  intros self g s.
  refine (already_remote_is_not_transferred (Samples.serves []) self (Some 1%Z) g
            (mkLocals 0 false {[ "a" ]}) s true (Some Samples.url_a) (Some "a.zip")
            _ _ _ _ _).
  - reflexivity.
  - reflexivity.
  - reflexivity.
  - simpl. apply (bool_decide_unpack _). vm_compute. exact I.
  - intros name t [= <-] _ _ Hdir. vm_compute in Hdir. discriminate Hdir.
Defined.

(** X13. When the listing of the mirror fails, the run gives up quietly:
    [download_and_process_games] prints the error line and returns without
    raising; no game is looked at, nothing is downloaded, uploaded or
    removed, and no [games.json] is written. *)
Theorem listing_failure_ends_run_quietly (env : Env) (self : Self)
    (game_ids : list string) (max_transfers : option Z) (s : State) :
  configured self = true →
  plan env (tick s) ≠ NoFault →
  download_and_process_games env self game_ids max_transfers s =
  Ok () (mkState (fs s) (remote s) (S (tick s))
           (events s ++ [Ran Ls 255; Says MsgErrorRemoteFolders])
           (processed_games_metadata s)).
Proof.
  intros Hc Hplan.
  unfold download_and_process_games, try_except, get_remote_folders. rewrite Hc. simpl.
  unfold bind at 1 2 3. unfold run. simpl.
  pose proof (exec_Ls (plan env (tick s)) false (remote s)) as (_ & _ & _ & Hbad).
  rewrite (Hbad Hplan). simpl. cbv [bind say ret]. simpl.
  by rewrite <- (assoc_L (++)).
Qed.

Lemma listing_failure_ends_run_quietly_witness :
  download_and_process_games (Samples.breaks_at 0) Samples.two_demos
    [Samples.url_a; Samples.url_b] None Samples.fresh
  = Ok () (mkState ∅ ∅ 1 [Ran Ls 255; Says MsgErrorRemoteFolders] []).
Proof.
  apply (listing_failure_ends_run_quietly (Samples.breaks_at 0) Samples.two_demos
           [Samples.url_a; Samples.url_b] None Samples.fresh).
  - reflexivity.
  - intros H. vm_compute in H. discriminate H.
Defined.

(** ** The unified game list *)

Lemma sheet_entry_unknown self game_id :
  PyStr.startswith "http" game_id = false → games self !! game_id = None →
  sheet_entry self game_id = inl game_id.
Proof. intros H1 H2. unfold sheet_entry. by rewrite H1, H2. Qed.

Lemma sheet_entry_known self game_id :
  PyStr.startswith "http" game_id = true ∨ is_Some (games self !! game_id) →
  ∃ g, sheet_entry self game_id = inr g.
Proof.
  intros H. unfold sheet_entry.
  destruct (PyStr.startswith "http" game_id); [by eexists|].
  destruct H as [?|[path Hpath]]; [done|]. rewrite Hpath. by eexists.
Qed.

Lemma add_game_ids_unknown self before unknown later d :
  (∀ id, id ∈ before →
         PyStr.startswith "http" id = true ∨ is_Some (games self !! id)) →
  PyStr.startswith "http" unknown = false → games self !! unknown = None →
  add_game_ids self (before ++ unknown :: later) d = inl unknown.
Proof.
  intros Hbefore H1 H2. revert d.
  induction before as [|id before IH]; intros d; simpl.
  - by rewrite sheet_entry_unknown.
  - destruct (sheet_entry_known self id) as [g Hg]; [apply Hbefore; left|].
    rewrite Hg. apply IH. intros id' Hin. apply Hbefore. by right.
Qed.

Lemma get_remote_folders_remote env self s :
  remote (state_of (get_remote_folders env self s)) = remote s.
Proof.
  unfold get_remote_folders. destruct (configured self); simpl; [|done].
  unfold bind, run. simpl.
  pose proof (exec_Ls (plan env (tick s)) false (remote s)) as (Hr & _).
  destruct (exec _ _ _ _) as [[rc out] r']. simpl in *. subst r'.
  case_decide; [|done].
  match goal with
  | |- context [verify_folders env ?li ?fo ?st] =>
      destruct (verify_folders_run env li fo st) as (folders' & s' & Hrun & Hrem & _)
  end.
  by rewrite Hrun.
Qed.

(** X14. An unknown game id stops the run before any game is processed:
    when some id neither starts with [http] nor is a key of [self.games],
    then, once the mirror has been listed, [download_and_process_games]
    prints the first such id and exits with status 1; apart from the
    listing nothing has happened: nothing is downloaded, uploaded, removed
    or added to the processed list. *)
Theorem unknown_game_id_exits_first (env : Env) (self : Self)
    (before later : list string) (unknown : string) (max_transfers : option Z)
    (s s1 : State) (folders : gset string) :
  (∀ id, id ∈ before →
         PyStr.startswith "http" id = true ∨ is_Some (games self !! id)) →
  PyStr.startswith "http" unknown = false →
  games self !! unknown = None →
  get_remote_folders env self s = Ok folders s1 →
  download_and_process_games env self (before ++ unknown :: later) max_transfers s =
  Raise (SystemExit 1)
    (mkState (fs s) (remote s) (tick s1)
       (events s1 ++ [Says (MsgFoundFolders (size folders)); Says (MsgUnknownGame unknown)])
       (processed_games_metadata s)).
Proof.
  intros Hbefore H1 H2 Hls.
  pose proof (same_get_remote_folders Frame.Local env self ltac:(done) s) as Hfs.
  pose proof (same_get_remote_folders Frame.Processed env self ltac:(done) s) as Hpr.
  pose proof (get_remote_folders_remote env self s) as Hrem.
  rewrite Hls in Hfs, Hpr, Hrem. simpl in Hfs, Hpr, Hrem.
  unfold download_and_process_games, try_except, games_dict.
  rewrite (add_game_ids_unknown self before unknown later [] Hbefore H1 H2).
  unfold bind at 1 2. rewrite Hls. cbv [bind say ret raise]. simpl.
  rewrite Hfs, Hpr, Hrem. by rewrite <- (assoc_L (++)).
Qed.

Lemma unknown_game_id_exits_first_witness :
  let s1 := mkState ∅ ∅ 1 [Ran Ls 0] [] in
  download_and_process_games (Samples.serves []) Samples.two_demos
    ([Samples.url_a] ++ "monkey" :: [Samples.url_b]) None Samples.fresh =
  Raise (SystemExit 1)
    (mkState (fs Samples.fresh) (remote Samples.fresh) (tick s1)
       (events s1 ++ [Says (MsgFoundFolders (size (∅ : gset string)));
                      Says (MsgUnknownGame "monkey")])
       (processed_games_metadata Samples.fresh)).
Proof.
  intros s1.
  apply (unknown_game_id_exits_first (Samples.serves []) Samples.two_demos
           [Samples.url_a] [Samples.url_b] "monkey" None Samples.fresh s1 ∅).
  - intros id ->%list_elem_of_singleton. left. reflexivity.
  - reflexivity.
  - reflexivity.
  - reflexivity.
Defined.

Lemma dict_set_keys key f (d : list (string * game_data)) :
  gd_target_name (f None) = key →
  (∀ g, gd_target_name g = key → gd_target_name (f (Some g)) = key) →
  NoDup d.*1 → (∀ k g, (k, g) ∈ d → gd_target_name g = k) →
  NoDup (dict_set key f d).*1 ∧
  (∀ k g, (k, g) ∈ dict_set key f d → gd_target_name g = k) ∧
  (∀ k, k ∈ (dict_set key f d).*1 ↔ k = key ∨ k ∈ d.*1).
Proof.
  intros Hnew Hold. induction d as [|[k0 g0] d IH]; simpl; intros Hnd Hkeys.
  - split; [apply NoDup_singleton|]. split.
    + intros k g [= -> ->]%list_elem_of_singleton. done.
    + intros k. rewrite list_elem_of_singleton. set_solver.
  - apply NoDup_cons in Hnd as [Hk0 Hnd].
    case_decide as Hk; simpl.
    + subst k0. split; [by apply NoDup_cons|]. split.
      * intros k g [[= -> ->]|Hin]%elem_of_cons.
        -- apply Hold, Hkeys. left.
        -- apply Hkeys. by right.
      * intros k. rewrite !elem_of_cons. naive_solver.
    + destruct IH as (IHnd & IHkeys & IHdom); [done| |].
      { intros k g Hin. apply Hkeys. by right. }
      split; [|split].
      * apply NoDup_cons. split; [|done]. rewrite IHdom. intros [?|?]; done.
      * intros k g [[= -> ->]|Hin]%elem_of_cons.
        -- apply Hkeys. left.
        -- by apply IHkeys.
      * intros k. rewrite !elem_of_cons, IHdom. naive_solver.
Qed.

Lemma sheet_entry_target self game_id g :
  sheet_entry self game_id = inr g →
  ∃ url filename, gd_sheet g = Some (url, filename) ∧
                  gd_target_name g = strip_zip filename ∧ gd_download_url g = None.
Proof.
  unfold sheet_entry. destruct (PyStr.startswith "http" game_id).
  - intros [= <-]. by eexists _, _.
  - destruct (games self !! game_id); [|done]. intros [= <-]. by eexists _, _.
Qed.

Lemma add_game_ids_keys self game_ids d d' :
  add_game_ids self game_ids d = inr d' →
  NoDup d.*1 → (∀ k g, (k, g) ∈ d → gd_target_name g = k) →
  NoDup d'.*1 ∧ (∀ k g, (k, g) ∈ d' → gd_target_name g = k) ∧
  (∀ k, k ∈ d'.*1 ↔
        k ∈ d.*1 ∨ ∃ game_id g, game_id ∈ game_ids ∧ sheet_entry self game_id = inr g ∧
                                gd_target_name g = k).
Proof.
  revert d. induction game_ids as [|game_id game_ids IH]; intros d; simpl.
  - intros [= <-] Hnd Hkeys. split; [done|]. split; [done|].
    intros k. split; [by left|]. intros [?|(? & ? & Hin & _)]; [done|].
    by apply elem_of_nil in Hin.
  - destruct (sheet_entry self game_id) as [unknown|g] eqn:Hentry; [done|].
    intros Hrest Hnd Hkeys.
    destruct (dict_set_keys (gd_target_name g) (λ _, g) d) as (Hnd1 & Hkeys1 & Hdom1);
      [done|done|done|done|].
    destruct (IH _ Hrest Hnd1 Hkeys1) as (Hnd2 & Hkeys2 & Hdom2).
    split; [done|]. split; [done|]. intros k. rewrite Hdom2, Hdom1. split.
    + intros [[->|?]|(id & g' & Hin & He & Ht)].
      * right. exists game_id, g. split; [left|done].
      * by left.
      * right. exists id, g'. split; [by right|done].
    + intros [?|(id & g' & [->|Hin]%elem_of_cons & He & Ht)].
      * by left; right.
      * left; left. congruence.
      * right. by exists id, g'.
Qed.

Lemma merge_metadata_keys self d m :
  NoDup d.*1 → (∀ k g, (k, g) ∈ d → gd_target_name g = k) →
  NoDup (merge_metadata self d m).*1 ∧
  (∀ k g, (k, g) ∈ merge_metadata self d m → gd_target_name g = k) ∧
  (∀ k, k ∈ d.*1 → k ∈ (merge_metadata self d m).*1).
Proof.
  intros Hnd Hkeys. unfold merge_metadata.
  destruct (m !! "relative_path") as [[| |target_name|]|]; try done.
  destruct (_ && _); [|done].
  match goal with
  | |- context [dict_set ?key ?f d] =>
      destruct (dict_set_keys key f d) as (H1 & H2 & H3); try done
  end.
  split; [done|]. split; [done|]. intros k Hk. apply H3. by right.
Qed.

Lemma games_dict_keys (self : Self) (game_ids : list string)
    (d : list (string * game_data)) :
  games_dict self game_ids = inr d →
  NoDup d.*1 ∧
  (∀ k g, (k, g) ∈ d → gd_target_name g = k) ∧
  (∀ game_id, game_id ∈ game_ids →
     ∃ g, sheet_entry self game_id = inr g ∧ gd_target_name g ∈ d.*1).
Proof.
  unfold games_dict.
  destruct (add_game_ids self game_ids []) as [unknown|d0] eqn:Hids; [done|].
  intros [= <-].
  destruct (add_game_ids_keys self game_ids [] d0 Hids) as (Hnd & Hkeys & Hdom).
  { constructor. }
  { intros k g Hin. by apply elem_of_nil in Hin. }
  assert (Hfold : ∀ ms d1,
    NoDup d1.*1 → (∀ k g, (k, g) ∈ d1 → gd_target_name g = k) →
    NoDup (foldl (merge_metadata self) d1 ms).*1 ∧
    (∀ k g, (k, g) ∈ foldl (merge_metadata self) d1 ms → gd_target_name g = k) ∧
    (∀ k, k ∈ d1.*1 → k ∈ (foldl (merge_metadata self) d1 ms).*1)).
  { induction ms as [|m ms IH]; intros d1 Hnd1 Hkeys1; simpl; [done|].
    destruct (merge_metadata_keys self d1 m Hnd1 Hkeys1) as (H1 & H2 & H3).
    destruct (IH _ H1 H2) as (H4 & H5 & H6). split; [done|]. split; [done|].
    intros k Hk. by apply H6, H3. }
  destruct (Hfold (games_metadata self) d0 Hnd Hkeys) as (H1 & H2 & H3).
  split; [done|]. split; [done|].
  intros game_id Hin.
  assert (Hknown : ∃ g, sheet_entry self game_id = inr g).
  { clear -Hids Hin. revert Hids. generalize (@nil (string * game_data)).
    induction game_ids as [|id ids IH]; intros d; [by apply elem_of_nil in Hin|].
    simpl. destruct (sheet_entry self id) as [u|g] eqn:He; [done|].
    apply elem_of_cons in Hin as [->|Hin]; [by exists g|]. by apply IH. }
  destruct Hknown as [g Hg]. exists g. split; [done|].
  apply H3, Hdom. right. by exists game_id, g.
Qed.


(** X15. The unified game list has one entry per target: when every id is
    known, the keys of [games_dict] are pairwise different, each entry is
    filed under its own target name, and the target of every requested id
    is among the keys; so the loop looks at each target once, also when
    several ids or a catalog record lead to the same target. *)
Theorem games_dict_one_entry_per_target (self : Self) (game_ids : list string)
    (d : list (string * game_data)) :
  games_dict self game_ids = inr d →
  NoDup d.*1 ∧
  (∀ k g, (k, g) ∈ d → gd_target_name g = k) ∧
  (∀ game_id, game_id ∈ game_ids →
     ∃ g, sheet_entry self game_id = inr g ∧ gd_target_name g ∈ d.*1).
Proof. apply games_dict_keys. Qed.

Lemma games_dict_one_entry_per_target_witness :
  ∃ d, games_dict Samples.two_demos [Samples.url_a; Samples.url_a; Samples.url_b] = inr d ∧
       NoDup d.*1 ∧ length d = 2.
Proof.
  eexists. split; [vm_compute; reflexivity|]. split; [|reflexivity].
  refine (proj1 (games_dict_one_entry_per_target Samples.two_demos
                   [Samples.url_a; Samples.url_a; Samples.url_b] _ _)).
  vm_compute. reflexivity.
Defined.

(** ** Facts about the string primitives *)

Section StringFacts.
Import PyStr.

Lemma string_app_assoc (a b c : string) : (a +:+ b) +:+ c = a +:+ (b +:+ c).
Proof.
  induction a as [|x a IH]; [done|].
  change (String x a +:+ b) with (String x (a +:+ b)).
  change (String x (a +:+ b) +:+ c) with (String x ((a +:+ b) +:+ c)).
  by rewrite IH.
Qed.

Lemma string_app_nil_r (a : string) : a +:+ "" = a.
Proof.
  induction a as [|x a IH]; [done|].
  change (String x a +:+ "") with (String x (a +:+ "")). by rewrite IH.
Qed.

Lemma string_app_cons x (a b : string) : String x a +:+ b = String x (a +:+ b).
Proof. done. Qed.

Lemma rev_app_spec (s acc : string) :
  String.rev_app s acc = String.rev_app s "" +:+ acc.
Proof.
  revert acc. induction s as [|x s IH]; intros acc; simpl; [done|].
  rewrite (IH (String x acc)), (IH (String x "")).
  by rewrite string_app_assoc.
Qed.

Lemma string_rev_cons x (s : string) : String.rev (String x s) = String.rev s +:+ String x "".
Proof. unfold String.rev. simpl. apply rev_app_spec. Qed.

Lemma string_rev_app (a b : string) : String.rev (a +:+ b) = String.rev b +:+ String.rev a.
Proof.
  induction a as [|x a IH].
  - change ("" +:+ b) with b. by rewrite string_app_nil_r.
  - rewrite string_app_cons, !string_rev_cons, IH. apply string_app_assoc.
Qed.

Lemma string_rev_involutive (s : string) : String.rev (String.rev s) = s.
Proof.
  induction s as [|x s IH]; [done|].
  by rewrite string_rev_cons, string_rev_app, IH.
Qed.

Lemma startswith_spec (p s : string) :
  startswith p s = true ↔ ∃ t, s = p +:+ t.
Proof.
  revert s. induction p as [|x p IH]; intros s; simpl.
  - split; [by exists s|done].
  - destruct s as [|y s]; [split; [done|by intros [t Ht]]|].
    case_decide as Hxy.
    + subst y. rewrite IH. split; intros [t Ht]; exists t.
      * by rewrite string_app_cons, <- Ht.
      * rewrite string_app_cons in Ht. by injection Ht.
    + split; [done|]. intros [t Ht]. rewrite string_app_cons in Ht. congruence.
Qed.

Lemma endswith_spec (p s : string) :
  endswith p s = true ↔ ∃ t, s = t +:+ p.
Proof.
  unfold endswith. rewrite startswith_spec. split; intros [t Ht].
  - exists (String.rev t). apply (f_equal String.rev) in Ht.
    by rewrite string_rev_involutive, string_rev_app, string_rev_involutive in Ht.
  - exists (String.rev t). by rewrite Ht, string_rev_app.
Qed.

Lemma substring_0_app (a b : string) : String.substring 0 (String.length a) (a +:+ b) = a.
Proof.
  induction a as [|x a IH].
  - change ("" +:+ b) with b. by destruct b.
  - rewrite string_app_cons. simpl. by rewrite IH.
Qed.

Lemma substring_skip_app (a b : string) j m :
  String.substring (String.length a + j) m (a +:+ b) = String.substring j m b.
Proof. induction a as [|x a IH]; [done|]. rewrite string_app_cons. simpl. apply IH. Qed.

Lemma substring_all (s : string) : String.substring 0 (String.length s) s = s.
Proof. induction s as [|x s IH]; simpl; [done|]. by rewrite IH. Qed.

Lemma string_split_at (s : string) k :
  k ≤ String.length s →
  ∃ a, s = a +:+ String.substring k (String.length s - k) s ∧ String.length a = k.
Proof.
  revert k. induction s as [|x s IH]; intros k Hk; simpl in *.
  - exists "". assert (k = 0) as -> by lia. done.
  - destruct k as [|k].
    + exists "". simpl. by rewrite substring_all.
    + destruct (IH k) as (a & Ha & Hlen); [lia|].
      exists (String x a). rewrite string_app_cons. simpl. by rewrite <- Ha, Hlen.
Qed.

(** [rfind]: the result is [-1] or a position; scanning with an offset
    shifts it. *)
Lemma rfind_go_shift c i best s :
  (-1 ≤ rfind c s < Z.of_nat (String.length s))%Z ∧
  rfind_go c i best s = if decide (rfind c s = -1)%Z then best else (i + rfind c s)%Z.
Proof.
  unfold rfind. revert i best. induction s as [|a s IH]; intros i best; simpl.
  - split; [lia|done].
  - destruct (IH 0%Z (-1)%Z) as [Hb _].
    destruct (IH (i + 1)%Z (if decide (a = c) then i else best)) as [_ ->].
    destruct (IH (0 + 1)%Z (if decide (a = c) then 0%Z else (-1)%Z)) as [_ ->].
    repeat case_decide; split; lia.
Qed.

Lemma rfind_bounds c s : (-1 ≤ rfind c s < Z.of_nat (String.length s))%Z.
Proof. apply (rfind_go_shift c 0 0). Qed.

Lemma rfind_go_app c i best (a b : string) :
  rfind_go c i best (a +:+ b) =
  rfind_go c (i + Z.of_nat (String.length a)) (rfind_go c i best a) b.
Proof.
  revert i best. induction a as [|x a IH]; intros i best.
  - simpl. change ("" +:+ b) with b. f_equal. lia.
  - rewrite string_app_cons. simpl. rewrite IH. f_equal. lia.
Qed.

Lemma rfind_app c (a b : string) :
  rfind c (a +:+ b) =
  if decide (rfind c b = -1)%Z then rfind c a
  else (Z.of_nat (String.length a) + rfind c b)%Z.
Proof.
  unfold rfind at 1. rewrite rfind_go_app.
  destruct (rfind_go_shift c (0 + Z.of_nat (String.length a)) (rfind_go c 0 (-1) a) b)
    as [_ ->].
  case_decide; [done|lia].
Qed.

Lemma rfind_cons c x s :
  rfind c (String x s) =
  if decide (rfind c s = -1)%Z then (if decide (x = c) then 0 else -1)%Z
  else (1 + rfind c s)%Z.
Proof.
  change (String x s) with (String x "" +:+ s). rewrite rfind_app.
  case_decide; [|done]. unfold rfind. simpl. done.
Qed.

Lemma from_app (a b : string) j :
  (0 ≤ j)%Z → from (Z.of_nat (String.length a) + j) (a +:+ b) = from j b.
Proof.
  intros Hj. unfold from.
  replace (Z.to_nat (Z.of_nat (String.length a) + j))
    with (String.length a + Z.to_nat j) by lia.
  rewrite substring_skip_app, string_length_app. f_equal. lia.
Qed.

Lemma from_0 (s : string) : from 0 s = s.
Proof. unfold from. simpl. rewrite Nat.sub_0_r. apply substring_all. Qed.

Lemma from_cons x (s : string) j : (0 ≤ j)%Z → from (1 + j) (String x s) = from j s.
Proof.
  intros Hj. unfold from.
  replace (Z.to_nat (1 + j)) with (S (Z.to_nat j)) by lia. done.
Qed.

(** The base name of a URL holds no slash. *)
Lemma basename_no_slash url : rfind "/" (basename url) = (-1)%Z.
Proof.
  unfold basename, from.
  pose proof (rfind_bounds "/" url) as Hb.
  destruct (string_split_at url (Z.to_nat (rfind "/" url + 1))) as (a & Ha & Hlen); [lia|].
  set (b := String.substring _ _ url) in *.
  destruct (decide (rfind "/" b = -1)%Z) as [|Hne]; [done|].
  pose proof (rfind_bounds "/" b).
  assert (Hr : rfind "/" url = (Z.of_nat (String.length a) + rfind "/" b)%Z).
  { rewrite Ha at 1. rewrite rfind_app. by rewrite decide_False. }
  lia.
Qed.

Lemma basename_plain s : rfind "/" s = (-1)%Z → basename s = s.
Proof. intros H. unfold basename. rewrite H. apply from_0. Qed.

(** Prefixing a path that ends in a slash does not change the base name. *)
Lemma basename_app_slash (a b : string) : basename (a +:+ "/" +:+ b) = basename b.
Proof.
  unfold basename.
  pose proof (rfind_bounds "/" b) as Hb.
  assert (Hs : rfind "/" ("/" +:+ b) = (1 + rfind "/" b)%Z).
  { change ("/" +:+ b) with (String "/" b). rewrite rfind_cons.
    case_decide as H; [|done]. rewrite decide_True by done. lia. }
  rewrite rfind_app, Hs. rewrite decide_False by lia.
  replace (Z.of_nat (String.length a) + (1 + rfind "/" b) + 1)%Z
    with (Z.of_nat (String.length a) + (1 + (rfind "/" b + 1)))%Z by lia.
  rewrite from_app by lia.
  change ("/" +:+ b) with (String "/" b). by rewrite from_cons by lia.
Qed.

Lemma strip_zip_app (t : string) : strip_zip (t +:+ ".zip") = t.
Proof.
  unfold strip_zip.
  assert (H : endswith ".zip" (t +:+ ".zip") = true) by (apply endswith_spec; by exists t).
  rewrite H. unfold drop_last. rewrite string_length_app. simpl.
  replace (String.length t + 4 - 4) with (String.length t) by lia.
  apply substring_0_app.
Qed.

Lemma stem_app_zip (t : string) : t ≠ "" → stem (t +:+ ".zip") = t.
Proof.
  intros Ht.
  assert (Hr : rfind "." (t +:+ ".zip") = Z.of_nat (String.length t)).
  { rewrite rfind_app. assert (Hz : rfind "." ".zip" = 0%Z) by done.
    rewrite Hz, decide_False by done. lia. }
  unfold stem. rewrite Hr, string_length_app.
  change (String.length ".zip") with 4.
  assert (0 < String.length t) by (destruct t; [done|simpl; lia]).
  rewrite decide_True by lia.
  unfold upto. rewrite Nat2Z.id. apply substring_0_app.
Qed.

End StringFacts.

(** ** Names: archive, extracted folder, catalog key and loop target *)

Section NameFacts.
Import PyStr Names.

Lemma contains_char_false c s : contains_char c s = false ↔ rfind c s = (-1)%Z.
Proof.
  unfold contains_char. pose proof (rfind_bounds c s).
  rewrite bool_decide_eq_false. lia.
Qed.

Lemma extract_zip_returns_stem zip_name s folder s' :
  extract_zip (Some zip_name) s = Ok folder s' → folder = stem zip_name.
Proof.
  cbv [extract_zip bind exists_ say ret]. simpl.
  destruct (bool_decide _); [by intros [= <- _]|].
  destruct (open_zip zip_name s) as [members s1|e s1]; [|done].
  destruct (extract_members _ _ s1) as [[] s2|e s2]; [|done].
  destruct (unlink zip_name s2) as [[] s3|e s3]; [|done]. by intros [= <- _].
Qed.

(** X16. The folder that [extract_zip] creates for a requested game is the
    loop's target name: for an entry built from a game id whose file name
    ends in [.zip] (and is more than the suffix, without a slash),
    whenever [extract_zip] returns, it returns the entry's [target_name];
    so the folder is uploaded under the name the next run looks up in the
    snapshot of the mirror. *)
Theorem extracted_folder_is_target (self : Self) (game_id : string) (g : game_data)
    (url filename : string) :
  sheet_entry self game_id = inr g →
  gd_sheet g = Some (url, filename) →
  endswith ".zip" filename = true →
  filename ≠ ".zip" →
  contains_char "/" filename = false →
  stem filename = gd_target_name g ∧
  ∀ s folder s', extract_zip (Some filename) s = Ok folder s' → folder = gd_target_name g.
Proof.
  intros Hentry Hsheet Hzip Hne _.
  destruct (sheet_entry_target self game_id g Hentry) as (url' & filename' & Hs & Ht & _).
  rewrite Hsheet in Hs. injection Hs as <- <-.
  apply endswith_spec in Hzip as [t ->].
  assert (Hstem : stem (t +:+ ".zip") = gd_target_name g).
  { rewrite Ht, strip_zip_app. apply stem_app_zip. by intros ->. }
  split; [done|]. intros s folder s' Hrun.
  by rewrite (extract_zip_returns_stem _ _ _ _ Hrun).
Qed.

Lemma extracted_folder_is_target_witness :
  stem "a.zip" = "a".
Proof.
  refine (proj1 (extracted_folder_is_target Samples.two_demos Samples.url_a
                   (mkGame (Some (Samples.url_a, "a.zip")) "a" None)
                   Samples.url_a "a.zip" _ _ _ _ _)); try reflexivity.
  intros H. discriminate H.
Defined.

Lemma get_relative_path_basename url u :
  (basename u = "" → basename url = "") →
  _get_relative_path url (basename u) = strip_zip (basename u).
Proof.
  intros Hempty. unfold _get_relative_path.
  destruct (truthy (basename u)) eqn:Htruthy;
    cbv [negb].
  - destruct (startswith "/" (basename u)) eqn:Hslash; [|done].
    apply startswith_spec in Hslash as [t Ht].
    pose proof (basename_no_slash u) as Hno. rewrite Ht in Hno.
    change ("/" +:+ t) with (String "/" t) in Hno. rewrite rfind_cons in Hno.
    pose proof (rfind_bounds "/" t). repeat case_decide; try lia; done.
  - assert (Hb : basename u = "") by (by destruct (basename u)).
    by rewrite Hb, (Hempty Hb).
Qed.

Lemma startswith_app (p t : string) : startswith p (p +:+ t) = true.
Proof. apply startswith_spec. by exists t. Qed.

Lemma host_is_http (x : string) : startswith "http" (host +:+ x) = true.
Proof. reflexivity. Qed.

Lemma loop_target_of_url (self : Self) (u : string) :
  (startswith "http" u = true ∨ startswith "/frs/" u = true →
   ∃ g, sheet_entry self (full_url u) = inr g ∧
        gd_target_name g = _get_relative_path u (basename u)) ∧
  (let download_url := "/frs/extras/" +:+ u in
   ∃ g, sheet_entry self (full_url download_url) = inr g ∧
        gd_target_name g = _get_relative_path download_url (basename u) ∧
        has_scummvm_download g = true).
Proof.
  split.
  - intros Hu. rewrite (get_relative_path_basename u u) by (intros H; exact H).
    unfold full_url. destruct (startswith "/frs/" u) eqn:Hfrs.
    + apply startswith_spec in Hfrs as [t ->].
      unfold sheet_entry. rewrite host_is_http.
      eexists. split; [reflexivity|]. simpl. f_equal.
      change (host +:+ "/frs/" +:+ t) with ((host +:+ "/frs") +:+ "/" +:+ t).
      change ("/frs/" +:+ t) with ("/frs" +:+ "/" +:+ t).
      by rewrite !basename_app_slash.
    + destruct Hu as [Hu|?]; [|done]. unfold sheet_entry. rewrite Hu.
      by eexists.
  - intros download_url. subst download_url.
    assert (Hfull : full_url ("/frs/extras/" +:+ u) = host +:+ "/frs/extras/" +:+ u).
    { unfold full_url.
      assert (H : startswith "/frs/" ("/frs/extras/" +:+ u) = true) by reflexivity.
      by rewrite H. }
    rewrite Hfull.
    assert (Hbase : ∀ a, basename (a +:+ "/frs/extras/" +:+ u) = basename u).
    { intros a.
      replace (a +:+ "/frs/extras/" +:+ u) with ((a +:+ "/frs/extras") +:+ "/" +:+ u).
      - apply basename_app_slash.
      - by rewrite string_app_assoc. }
    rewrite get_relative_path_basename.
    + unfold sheet_entry. rewrite host_is_http.
      eexists. split; [reflexivity|]. simpl. split.
      * f_equal. apply (Hbase host).
      * unfold has_scummvm_download, resolve_source. simpl.
        reflexivity.
    + intros Hb. etrans; [apply (Hbase "")|exact Hb].
Qed.

(** X17. For the default run the catalog key of a sheet row is the loop's
    target: the id that [main] builds from a collected URL is always known
    to the loop, and the target name the loop derives from it equals the
    [relative_path] under which the loader filed the row's record.  This
    holds for a demo row whose URL is absolute or starts with [/frs/], and
    for every game-download row (whose URL is put under [/frs/extras/] and
    is therefore a first-party download). *)
Theorem catalog_key_is_loop_target (self : Self) (u : string) :
  (startswith "http" u = true ∨ startswith "/frs/" u = true →
   ∃ g, sheet_entry self (full_url u) = inr g ∧
        gd_target_name g = _get_relative_path u (basename u)) ∧
  (let download_url := "/frs/extras/" +:+ u in
   ∃ g, sheet_entry self (full_url download_url) = inr g ∧
        gd_target_name g = _get_relative_path download_url (basename u) ∧
        has_scummvm_download g = true).
Proof. apply loop_target_of_url. Qed.

Lemma catalog_key_is_loop_target_witness :
  ∃ g, sheet_entry Samples.two_demos (full_url "/frs/demos/monkey/monkey-demo.zip") = inr g ∧
       gd_target_name g =
       _get_relative_path "/frs/demos/monkey/monkey-demo.zip"
         (basename "/frs/demos/monkey/monkey-demo.zip").
Proof.
  apply (proj1 (catalog_key_is_loop_target Samples.two_demos
                  "/frs/demos/monkey/monkey-demo.zip")).
  right. reflexivity.
Defined.

Lemma target_name_for_game_id_entry self game_id :
  _get_target_name_for_game_id self game_id =
  match sheet_entry self game_id with
  | inr g => gd_target_name g
  | inl _ => game_id
  end.
Proof.
  unfold _get_target_name_for_game_id, sheet_entry.
  destruct (startswith "http" game_id); [done|].
  by destruct (games self !! game_id).
Qed.

(** X18. The key by which [main] sorts the game ids is the name the loop
    works under: for every requested id of a run whose ids are all known,
    [_get_target_name_for_game_id] returns the target name of the entry the
    loop builds for the id, and that name is a key of the unified game
    list. *)
Theorem sort_key_is_loop_target (self : Self) (game_ids : list string)
    (d : list (string * game_data)) (game_id : string) :
  games_dict self game_ids = inr d →
  game_id ∈ game_ids →
  _get_target_name_for_game_id self game_id ∈ d.*1 ∧
  ∃ g, sheet_entry self game_id = inr g ∧
       gd_target_name g = _get_target_name_for_game_id self game_id.
Proof.
  intros Hd Hin.
  destruct (games_dict_keys self game_ids d Hd) as (_ & _ & Hall).
  destruct (Hall game_id Hin) as (g & Hg & Hkey).
  rewrite target_name_for_game_id_entry, Hg. split; [done|]. by exists g.
Qed.

Lemma sort_key_is_loop_target_witness :
  _get_target_name_for_game_id Samples.two_demos Samples.url_b ∈
    [("a", mkGame (Some (Samples.url_a, "a.zip")) "a" None);
     ("b", mkGame (Some (Samples.url_b, "b.zip")) "b" None)].*1.
Proof.
  refine (proj1 (sort_key_is_loop_target Samples.two_demos [Samples.url_a; Samples.url_b]
                   _ Samples.url_b _ _)).
  - vm_compute. reflexivity.
  - apply (bool_decide_unpack _). vm_compute. exact I.
Defined.

End NameFacts.

(** ** A transfer that goes well *)

Lemma download_file_success env url filename s c :
  net env url = Fetched c →
  fs s !! downloading filename = None →
  fs s !! filename = None →
  download_file env url filename s =
  Ok (Some filename)
     (mkState (<[filename := File c]> (fs s)) (remote s) (tick s)
        (events s ++ [Fetch url]) (processed_games_metadata s)).
Proof.
  intros Hnet Htemp Hfile. pose proof (downloading_ne filename) as Hne.
  destruct s as [f r k ev pr]. simpl in *.
  cbv [download_file try_except bind urlretrieve log rename ret set_fs]. simpl.
  rewrite Hnet. simpl. rewrite Htemp. simpl.
  rewrite lookup_insert_eq. rewrite lookup_insert_ne by done. rewrite Hfile.
  by rewrite delete_insert_id.
Qed.

Lemma extract_zip_success zip_name members t s :
  fs s !! zip_name = Some (File (ZipArchive members)) →
  fs s !! stem zip_name = None →
  (∀ s0, extract_members (stem zip_name) members s0 =
         Ok () (mkState (<[stem zip_name := Dir t]> (fs s0)) (remote s0) (tick s0)
                  (events s0) (processed_games_metadata s0))) →
  extract_zip (Some zip_name) s =
  Ok (stem zip_name)
     (mkState (delete zip_name (<[stem zip_name := Dir t]> (fs s))) (remote s) (tick s)
        (events s) (processed_games_metadata s)).
Proof.
  intros Hzip Hdir Hext. destruct s as [f r k ev pr]. simpl in *.
  assert (Hne : stem zip_name ≠ zip_name) by (intros Heq; congruence).
  cbv [extract_zip bind exists_ open_zip ret]. simpl.
  rewrite bool_decide_false by (rewrite Hdir; by intros [? ?]). simpl.
  rewrite Hzip. simpl. rewrite Hext. simpl.
  unfold unlink. simpl. rewrite lookup_insert_ne by done. by rewrite Hzip.
Qed.

Lemma upload_folder_success env self folder_name s :
  configured self = true →
  is_Some (fs s !! folder_name) →
  remote s !! folder_name = None →
  plan env (tick s) = NoFault →
  plan env (S (tick s)) = NoFault →
  plan env (S (S (tick s))) = NoFault →
  upload_folder env self folder_name s =
  Ok true
     (mkState (fs s)
        (<[folder_name := Whole]> (delete (uploading folder_name) (remote s)))
        (S (S (S (tick s))))
        (events s ++ [Ran (RmRf (uploading folder_name)) 0;
                      Ran (ScpR folder_name (uploading folder_name)) 0;
                      Ran (Mv (uploading folder_name) folder_name) 0;
                      Says (MsgUploaded folder_name)])
        (processed_games_metadata s)).
Proof.
  intros Hc Hlocal Hremote H0 H1 H2. pose proof (uploading_ne folder_name) as Hne.
  destruct s as [f r k ev pr]. simpl in *.
  unfold upload_folder. rewrite Hc. simpl.
  cbv [bind try_except run run_checked cmd_source ret raise say]. simpl.
  rewrite H0. simpl. rewrite bool_decide_true by done. rewrite H1. simpl.
  rewrite lookup_delete_eq. simpl. rewrite H2. simpl.
  rewrite lookup_insert_eq. rewrite lookup_insert_ne by done.
  rewrite lookup_delete_ne by done. rewrite Hremote. simpl.
  rewrite delete_insert_eq, delete_delete_eq.
  by rewrite <- !(assoc_L (++)).
Qed.

Lemma bind_Ok {A B} (m : M A) (k : A → M B) s a s' :
  m s = Ok a s' → bind m k s = k a s'.
Proof. unfold bind. by intros ->. Qed.

Lemma exists_absent name s : fs s !! name = None → exists_ name s = Ok false s.
Proof. intros H. unfold exists_. rewrite bool_decide_false; [done|]. rewrite H. by intros [? ?]. Qed.

Lemma add_processed_run self target_name s :
  add_processed self target_name s =
  Ok () (mkState (fs s) (remote s) (tick s)
           (events s ++ match Catalog.find_existing (Catalog.PStr target_name) 0
                                (games_metadata self) with
                        | Some _ => []
                        | None => [Says (MsgNoMetadata target_name)]
                        end)
           (processed_games_metadata s ++
              match Catalog.find_existing (Catalog.PStr target_name) 0
                      (games_metadata self) with
              | Some (_, game_metadata) => [game_metadata]
              | None => []
              end)).
Proof.
  unfold add_processed.
  destruct (Catalog.find_existing _ _ _) as [[i m]|] eqn:Hfind.
  - rewrite (find_existing_truthy _ _ _ _ _ Hfind). by rewrite app_nil_r.
  - unfold say. by rewrite app_nil_r.
Qed.

Lemma transfer_success env self max_transfers url target_name members t l s :
  target_name ≠ "" →
  configured self = true →
  match max_transfers with Some m => (transfer_count l < m)%Z | None => True end →
  fs s !! target_name = None →
  fs s !! (target_name +:+ ".zip") = None →
  fs s !! downloading (target_name +:+ ".zip") = None →
  net env url = Fetched (ZipArchive members) →
  (∀ s0, extract_members target_name members s0 =
         Ok () (mkState (<[target_name := Dir t]> (fs s0)) (remote s0) (tick s0)
                  (events s0) (processed_games_metadata s0))) →
  remote s !! target_name = None →
  plan env (tick s) = NoFault →
  plan env (S (tick s)) = NoFault →
  plan env (S (S (tick s))) = NoFault →
  transfer env self max_transfers url (target_name +:+ ".zip") target_name l s =
  Ok (mkLocals (transfer_count l + 1) true (remote_folders l), true)
     (mkState (<[target_name := Dir t]> (fs s))
        (<[target_name := Whole]> (delete (uploading target_name) (remote s)))
        (S (S (S (tick s))))
        (events s ++ [Fetch url;
                      Ran (RmRf (uploading target_name)) 0;
                      Ran (ScpR target_name (uploading target_name)) 0;
                      Ran (Mv (uploading target_name) target_name) 0;
                      Says (MsgUploaded target_name)])
        (processed_games_metadata s)).
Proof.
  intros Hne Hc Hallow Hdir Hfile Htemp Hnet Hext Hremote H0 H1 H2.
  set (filename := target_name +:+ ".zip") in *.
  assert (Hstem : stem filename = target_name) by (by apply stem_app_zip).
  assert (Hzip : PyStr.endswith ".zip" filename = true)
    by (apply endswith_spec; by exists target_name).
  assert (Hnames : target_name ≠ filename) by (by apply string_app_ne).
  assert (Hallow' : match max_transfers with
                    | None => true
                    | Some m => bool_decide (transfer_count l < m)%Z
                    end = true).
  { destruct max_transfers; [by apply bool_decide_eq_true|done]. }
  unfold transfer. rewrite Hallow', Hzip.
  rewrite (bind_Ok (ret ()) _ s () s) by done.
  rewrite (bind_Ok (exists_ target_name) _ s false s) by (by apply exists_absent).
  change (true && false) with false. cbv iota.
  rewrite (bind_Ok (exists_ (downloading filename)) _ s false s) by (by apply exists_absent).
  rewrite (bind_Ok (ret ()) _ s () s) by done.
  rewrite (bind_Ok (exists_ filename) _ s false s) by (by apply exists_absent).
  erewrite (bind_Ok (download_file env url filename)) by (by apply download_file_success).
  erewrite (bind_Ok (extract_zip (Some filename))).
  2:{ apply (extract_zip_success filename members t).
      - simpl. apply lookup_insert_eq.
      - simpl. rewrite Hstem. by rewrite lookup_insert_ne.
      - by rewrite Hstem. }
  rewrite Hstem. simpl.
  erewrite (bind_Ok (upload_folder env self target_name)).
  2:{ apply upload_folder_success; simpl; try done.
      rewrite lookup_delete_ne by done. rewrite lookup_insert_eq. by eexists. }
  unfold ret, count_upload. simpl. f_equal. f_equal.
  - rewrite insert_insert_ne by done. by rewrite delete_insert_id by (by rewrite lookup_insert_ne).
  - by rewrite <- !(assoc_L (++)).
Qed.

(** X19. A game that is new to the mirror ends up there under its target
    name: for a first-party zip download that is not marked skip, not in
    the snapshot, within the budget, with nothing of it in the download
    directory, when the download delivers an archive that extracts to a
    non-empty tree and the three remote commands work, one iteration
    downloads the archive, extracts it into the folder [target_name],
    removes the archive, uploads the folder through the temporary name and
    renames it, so that the mirror holds a whole copy under [target_name];
    the transfer counter goes up by one and the item's catalog record is
    appended to the processed list.  The extracted folder stays in the
    download directory. *)
Theorem new_game_is_mirrored (env : Env) (self : Self) (max_transfers : option Z)
    (url target_name : string) (members : list ZipInfo) (t : tree)
    (l : Locals) (s : State) :
  let filename := target_name +:+ ".zip" in
  let g := mkGame (Some (url, filename)) target_name None in
  let found := Catalog.find_existing (Catalog.PStr target_name) 0 (games_metadata self) in
  target_name ≠ "" →
  PyStr.startswith frs_prefix url = true →
  is_skipped self target_name = false →
  configured self = true →
  target_name ∉ remote_folders l →
  match max_transfers with Some m => (transfer_count l < m)%Z | None => True end →
  fs s !! target_name = None →
  fs s !! filename = None →
  fs s !! downloading filename = None →
  net env url = Fetched (ZipArchive members) →
  (∀ s0, extract_members target_name members s0 =
         Ok () (mkState (<[target_name := Dir t]> (fs s0)) (remote s0) (tick s0)
                  (events s0) (processed_games_metadata s0))) →
  remote s !! target_name = None →
  plan env (tick s) = NoFault →
  plan env (S (tick s)) = NoFault →
  plan env (S (S (tick s))) = NoFault →
  process_game env self max_transfers g l s =
  Ok (mkLocals (transfer_count l + 1) true (remote_folders l))
     (mkState (<[target_name := Dir t]> (fs s))
        (<[target_name := Whole]> (delete (uploading target_name) (remote s)))
        (S (S (S (tick s))))
        (events s ++ [Fetch url;
                      Ran (RmRf (uploading target_name)) 0;
                      Ran (ScpR target_name (uploading target_name)) 0;
                      Ran (Mv (uploading target_name) target_name) 0;
                      Says (MsgUploaded target_name)] ++
           match found with
           | Some _ => []
           | None => [Says (MsgNoMetadata target_name)]
           end)
        (processed_games_metadata s ++
           match found with
           | Some (_, game_metadata) => [game_metadata]
           | None => []
           end)).
Proof.
  intros filename g found Hne Hfrs Hskip Hc Hnot Hallow Hdir Hfile Htemp Hnet Hext
    Hremote H0 H1 H2. subst g found filename.
  unfold process_game, resolve_source. cbn [gd_sheet gd_target_name]. rewrite Hfrs.
  unfold folder_exists_on_remote. rewrite Hc. simpl.
  rewrite decide_False by done. rewrite Hskip. simpl.
  erewrite bind_Ok.
  2:{ assert (Hl : mkLocals (transfer_count l) (any_uploads_occurred l) (remote_folders l) = l)
        by (by destruct l).
      rewrite Hl. by apply (transfer_success env self max_transfers url target_name members t). }
  simpl. erewrite bind_Ok by apply add_processed_run.
  unfold ret. simpl. by rewrite <- !(assoc_L (++)).
Qed.

Lemma new_game_is_mirrored_witness :
  let env := mkEnv (λ _, Fetched (ZipArchive [mkZipInfo "Foo/" ""; mkZipInfo "readme" "R";
                                               mkZipInfo "Foo/a.txt" "A"]))
                   (λ _, NoFault) in
  ∃ s', process_game env Samples.two_demos (Some 1%Z)
          (mkGame (Some (Samples.url_a, "a" +:+ ".zip")) "a" None)
          (mkLocals 0 false ∅) Samples.fresh = Ok (mkLocals (0 + 1) true ∅) s' ∧
        remote s' !! "a" = Some Whole ∧
        processed_games_metadata s' = [Samples.record_a].
Proof.
  intros env. eexists. split.
  - apply (new_game_is_mirrored env Samples.two_demos (Some 1%Z) Samples.url_a "a"
             [mkZipInfo "Foo/" ""; mkZipInfo "readme" "R"; mkZipInfo "Foo/a.txt" "A"]
             [(["Foo"], TDir); (["readme"], TFile "R"); (["Foo"; "a.txt"], TFile "A")]
             (mkLocals 0 false ∅) Samples.fresh); try reflexivity.
    all: try (intros H; discriminate H).
    all: try (apply (bool_decide_unpack _); vm_compute; exact I).
    all: try (intros [f r k ev pr]; reflexivity).
  - split; reflexivity.
Defined.

(** ** The ssh command lines *)

Section SshFacts.
Import Catalog Ssh.

Lemma build_ssh_command_head environ scp_port base_command :
  ∃ options,
    (_build_ssh_command environ scp_port base_command).1 =
    (if opt_truthy (environ !! "SSH_PASSWORD") then ["sshpass"; "-e"] else [])
      ++ base_command :: options.
Proof.
  unfold _build_ssh_command.
  destruct (environ !! "SSH_PASSWORD") as [password|]; simpl.
  - destruct (PyStr.truthy password); simpl.
    + destruct (environ !! "SSH_KEY_PATH") as [key|]; rewrite ?andb_false_r;
        by eexists.
    + destruct (environ !! "SSH_KEY_PATH") as [key|];
        [destruct (PyStr.truthy key)|]; simpl; by eexists.
  - destruct (environ !! "SSH_KEY_PATH") as [key|];
      [destruct (PyStr.truthy key)|]; simpl; by eexists.
Qed.

(** X20. The flag that opens the master connection always sits directly
    after the [ssh] word: whatever the environment holds (password, key
    path) and whatever the port is, the command of [_open_ssh_connection]
    is the command of [_build_ssh_command] with [-MNf] inserted right after
    [ssh] (after [sshpass -e ssh] with a password) and before every option,
    followed by the server as last argument; the environment is passed on
    unchanged. *)
Theorem open_ssh_flag_follows_ssh (environ : gmap string string)
    (scp_server : option string) (scp_port : option Z) :
  let prefix :=
    if opt_truthy (environ !! "SSH_PASSWORD") then ["sshpass"; "-e"] else [] in
  ∃ options,
    (_build_ssh_command environ scp_port "ssh").1 = prefix ++ "ssh" :: options ∧
    (_open_ssh_connection environ scp_server scp_port).1 =
      prefix ++ "ssh" :: "-MNf" :: options ++ [server_str scp_server] ∧
    (_open_ssh_connection environ scp_server scp_port).2 =
      (_build_ssh_command environ scp_port "ssh").2.
Proof.
  intros prefix. subst prefix.
  destruct (build_ssh_command_head environ scp_port "ssh") as [options Hcmd].
  exists options. split; [done|].
  unfold _open_ssh_connection.
  destruct (_build_ssh_command environ scp_port "ssh") as [ssh_cmd env] eqn:Hbuild.
  simpl in *. subst ssh_cmd. split; [|done].
  destruct (opt_truthy (environ !! "SSH_PASSWORD")); simpl.
  - unfold list_insert_at. simpl. by rewrite ?take_0, ?drop_0.
  - unfold list_insert_at. simpl. by rewrite ?take_0, ?drop_0.
Qed.

(** X21. A password reaches the child process through the environment
    only: when [SSH_PASSWORD] is set and not empty, the command line of
    [_build_ssh_command] starts with [sshpass -e], does not depend on the
    password's value nor on [SSH_KEY_PATH] (no [-i] option is added), and
    does not ask for batch mode; the environment handed on is the parent's
    with [SSHPASS] set to the password. *)
Theorem password_only_in_environment (environ : gmap string string)
    (scp_port : option Z) (base_command password : string) :
  environ !! "SSH_PASSWORD" = Some password →
  password ≠ "" →
  let out := _build_ssh_command environ scp_port base_command in
  out.2 = <["SSHPASS" := password]> environ ∧
  out.1 = ["sshpass"; "-e"; base_command] ++ port_option scp_port base_command ++
          ["-o"; "ControlMaster=auto"; "-o"; "ControlPath=" +:+ control_path;
           "-o"; "ControlPersist=600"; "-o"; "StrictHostKeyChecking=no"] ∧
  (∀ other key,
     other ≠ "" →
     (_build_ssh_command (<["SSH_KEY_PATH" := key]> (<["SSH_PASSWORD" := other]> environ))
        scp_port base_command).1 = out.1).
Proof.
  intros Hpw Hne out.
  assert (Hshape : ∀ env' pw, env' !! "SSH_PASSWORD" = Some pw → pw ≠ "" →
    _build_ssh_command env' scp_port base_command =
    (["sshpass"; "-e"; base_command] ++ port_option scp_port base_command ++
       ["-o"; "ControlMaster=auto"; "-o"; "ControlPath=" +:+ control_path;
        "-o"; "ControlPersist=600"; "-o"; "StrictHostKeyChecking=no"],
     <["SSHPASS" := pw]> env')).
  { intros env' pw Hlook Hpw'. unfold _build_ssh_command. rewrite Hlook. simpl.
    assert (Ht : PyStr.truthy pw = true) by (by destruct pw).
    rewrite Ht. simpl.
    destruct (env' !! "SSH_KEY_PATH") as [key|]; rewrite ?andb_false_r;
      by rewrite <- !(assoc_L (++)). }
  subst out. rewrite (Hshape environ password Hpw Hne). simpl.
  split; [done|]. split; [done|].
  intros other key Hother.
  rewrite (Hshape _ other); [done| |done].
  rewrite lookup_insert_ne by done. apply lookup_insert_eq.
Qed.

Lemma password_only_in_environment_witness :
  (_build_ssh_command {[ "SSH_PASSWORD" := "hunter2"; "SSH_KEY_PATH" := "/root/.ssh/id_rsa" ]}
     (Some 2222%Z) "scp").1 =
  ["sshpass"; "-e"; "scp"] ++ port_option (Some 2222%Z) "scp" ++
  ["-o"; "ControlMaster=auto"; "-o"; "ControlPath=" +:+ control_path;
   "-o"; "ControlPersist=600"; "-o"; "StrictHostKeyChecking=no"].
Proof.
  refine (proj1 (proj2 (password_only_in_environment _ (Some 2222%Z) "scp" "hunter2" _ _))).
  - reflexivity.
  - intros H. discriminate H.
Defined.

End SshFacts.
